(** * Tech volatility dashboard: the metrics and correlation engines of [app.py]

    A shallow embedding of [calculate_metrics], [calculate_correlation] and
    the KPI row of [main], together with the pandas operations they are
    written with ([pct_change], [rolling(...).mean()], [rolling(...).std()],
    [dropna], [corr], [iloc], column selection and column assignment).

    Numbers.  A float64 cell is modelled as [option R]: [None] is pandas'
    missing value (NaN) and [Some x] a number, with the arithmetic of the
    reals.  Rounding, infinities and overflow are outside the model; so is a
    division by zero, which float64 answers with an infinity or NaN: what is
    stated about the value of a quotient assumes a non-zero divisor. *)

From Stdlib Require Import String Reals Lra Lia ZArith Bool Arith List.
Import ListNotations.

Local Open Scope string_scope.
Local Open Scope list_scope.
Local Open Scope nat_scope.

(** ** Cells and series *)

Definition cell := option R.
Definition Series := list cell.
Definition Date := nat.

Definition notna (c : cell) : bool :=
  match c with Some _ => true | None => false end.

Definition cell_map2 (f : R -> R -> R) (a b : cell) : cell :=
  match a, b with
  | Some x, Some y => Some (f x y)
  | _, _ => None
  end.

(** Division of two cells; meaningful for a non-zero divisor only. *)
Definition cell_div : cell -> cell -> cell := cell_map2 Rdiv.

(** [series * k] and [series - k] with a scalar. *)
Definition mul_scalar (s : Series) (k : R) : Series :=
  map (option_map (fun x => (x * k)%R)) s.

Definition sub_scalar (s : Series) (k : R) : Series :=
  map (option_map (fun x => (x - k)%R)) s.

Fixpoint zip_with {A B C} (f : A -> B -> C) (l : list A) (m : list B) : list C :=
  match l, m with
  | a :: l', b :: m' => f a b :: zip_with f l' m'
  | _, _ => []
  end.

(** [Series.shift(1)]: every value moves one row down, the first row is
    missing, the last value falls off. *)
Definition shift (s : Series) : Series :=
  match s with
  | [] => []
  | _ :: _ => None :: removelast s
  end.

(** [Series.ffill()]: a missing value takes the last value seen before it. *)
Fixpoint ffill_from (last : cell) (s : Series) : Series :=
  match s with
  | [] => []
  | c :: t =>
      let v := if notna c then c else last in
      v :: ffill_from v t
  end.

Definition ffill (s : Series) : Series := ffill_from None s.

(** The values of a list of cells that are not missing. *)
Fixpoint valid (s : Series) : list R :=
  match s with
  | [] => []
  | Some x :: t => x :: valid t
  | None :: t => valid t
  end.

Definition sum (l : list R) : R := fold_right Rplus 0%R l.

(** ** Aggregations of a window *)

(** [mean]: the sum over the count. *)
Definition mean (l : list R) : R := (sum l / INR (length l))%R.

(** Sum of squared deviations from the mean. *)
Definition ssqdm (l : list R) : R :=
  sum (map (fun x => ((x - mean l) * (x - mean l))%R) l).

(** Kernel of [.mean()] on a window: missing when the window holds no
    observation. *)
Definition agg_mean (obs : list R) : cell :=
  if length obs =? 0 then None else Some (mean obs).

(** Kernel of [.std()] on a window, [ddof = 1]: missing unless there are more
    observations than [ddof]. *)
Definition ddof : nat := 1.

Definition agg_std (obs : list R) : cell :=
  if length obs <=? ddof then None
  else Some (sqrt (ssqdm obs / INR (length obs - ddof))).

(** ** Rolling windows *)

(** The window of [rolling(window=w)] at row [i]: rows [i-w+1 .. i], cut at
    the start of the series. *)
Definition window_at (w : nat) (s : Series) (i : nat) : Series :=
  let start := S i - w in
  firstn (S i - start) (skipn start s).

(** [s.rolling(window=w).agg()]: [min_periods] defaults to [w]; a row whose
    window holds fewer than [min_periods] observations is missing. *)
Definition rolling (w : nat) (agg : list R -> cell) (s : Series) : Series :=
  let min_periods := w in
  map (fun i =>
         let obs := valid (window_at w s i) in
         if length obs <? min_periods then None else agg obs)
      (seq 0 (length s)).

(** ** Exceptions and positional access *)

Inductive Exn := KeyError | IndexError.

Inductive Res (A : Type) : Type :=
| Ok (a : A)
| Raise (e : Exn).

Arguments Ok {A} a.
Arguments Raise {A} e.

(** [s.iloc[k]] with an integer: a negative [k] counts from the end; a
    position outside [0 .. len-1] raises [IndexError]. *)
Definition iloc (s : Series) (k : Z) : Res cell :=
  let n := Z.of_nat (length s) in
  let pos := if (k <? 0)%Z then (n + k)%Z else k in
  if ((0 <=? pos) && (pos <? n))%Z then
    match nth_error s (Z.to_nat pos) with
    | Some c => Ok c
    | None => Raise IndexError
    end
  else Raise IndexError.

(** ** Frames *)

(** A DataFrame with flat column labels: a date index and labelled columns,
    in column order. *)
Record Frame := mkFrame {
  index : list Date;
  columns : list (string * Series)
}.

(** The downloaded table: columns are labelled by (ticker, field), as
    [group_by='ticker'] lays them out. *)
Record PriceTable := mkTable {
  dates : list Date;
  tcolumns : list ((string * string) * Series)
}.

Definition named (name : string) (c : string * Series) : bool :=
  String.eqb (fst c) name.

(** [frame[name]]: [KeyError] when no column has that label. *)
Definition getitem (f : Frame) (name : string) : Res Series :=
  match find (named name) (columns f) with
  | Some c => Ok (snd c)
  | None => Raise KeyError
  end.

Fixpoint replace_col (name : string) (s : Series) (cols : list (string * Series))
  : list (string * Series) :=
  match cols with
  | [] => []
  | c :: t =>
      if named name c then (name, s) :: t else c :: replace_col name s t
  end.

(** [frame[name] = s] for a series on the frame's own index: an existing
    column is overwritten in place, a new one is appended. *)
Definition setitem (f : Frame) (name : string) (s : Series) : Frame :=
  if existsb (named name) (columns f)
  then mkFrame (index f) (replace_col name s (columns f))
  else mkFrame (index f) (columns f ++ [(name, s)]).

Definition of_ticker (ticker : string) (c : (string * string) * Series) : bool :=
  String.eqb (fst (fst c)) ticker.

(** [ticker in df.columns]: the ticker is a first-level column label. *)
Definition contains (df : PriceTable) (ticker : string) : bool :=
  existsb (of_ticker ticker) (tcolumns df).

(** [df[ticker]]: the columns of that ticker, labelled by field; [KeyError]
    when the ticker is not a first-level label. *)
Definition select (df : PriceTable) (ticker : string) : Res Frame :=
  match filter (of_ticker ticker) (tcolumns df) with
  | [] => Raise KeyError
  | cs => Ok (mkFrame (dates df) (map (fun c => (snd (fst c), snd c)) cs))
  end.

(** ** Objects and the heap *)

(** DataFrames are mutable objects; a variable holds a reference. *)
Inductive Obj :=
| OTable (t : PriceTable)
| OFrame (f : Frame).

Definition Loc := nat.
Definition Heap := list Obj.

(** Computations that read and write the heap and may raise. *)
Definition M (A : Type) : Type := Heap -> Res A * Heap.

Definition ret {A} (a : A) : M A := fun h => (Ok a, h).
Definition raise {A} (e : Exn) : M A := fun h => (Raise e, h).

Definition bind {A B} (m : M A) (k : A -> M B) : M B :=
  fun h =>
    match m h with
    | (Ok a, h') => k a h'
    | (Raise e, h') => (Raise e, h')
    end.

Notation "x <- m ;; k" := (bind m (fun x => k))
  (at level 61, m at next level, right associativity).
Notation "m ;;; k" := (bind m (fun _ => k))
  (at level 61, right associativity).

Definition lift {A} (r : Res A) : M A := fun h => (r, h).

(** A fresh object. *)
Definition alloc (o : Obj) : M Loc := fun h => (Ok (length h), h ++ [o]).

Fixpoint update (h : Heap) (l : Loc) (o : Obj) : Heap :=
  match h, l with
  | [], _ => []
  | _ :: t, O => o :: t
  | x :: t, S l' => x :: update t l' o
  end.

Definition read_table (l : Loc) : M PriceTable :=
  fun h =>
    match nth_error h l with
    | Some (OTable t) => (Ok t, h)
    | _ => (Raise KeyError, h)
    end.

Definition read_frame (l : Loc) : M Frame :=
  fun h =>
    match nth_error h l with
    | Some (OFrame f) => (Ok f, h)
    | _ => (Raise KeyError, h)
    end.

(** [stock_df[name]] through a reference. *)
Definition get_column (l : Loc) (name : string) : M Series :=
  f <- read_frame l ;; lift (getitem f name).

(** [stock_df[name] = s] through a reference: the object is changed in
    place. *)
Definition set_column (l : Loc) (name : string) (s : Series) : M unit :=
  f <- read_frame l ;;
  fun h => (Ok tt, update h l (OFrame (setitem f name s))).

(** [.copy()]: a new object with the same contents. *)
Definition copy (f : Frame) : M Loc := alloc (OFrame f).

Section Engine.

(** pandas' default [fill_method] of [pct_change] depends on its version:
    ['pad'] (forward fill first) before 3.0, none from 3.0 on. *)
Variable fill_pad : bool.

(** [s.pct_change()] is [data / data.shift(1) - 1]. *)
Definition pct_change (s : Series) : Series :=
  let data := if fill_pad then ffill s else s in
  sub_scalar (zip_with cell_div data (shift data)) 1.

(** ** The per-ticker metrics engine *)

Definition calculate_metrics (df : Loc) (ticker : string) : M (option Loc) :=
  table <- read_table df ;;
  match select table ticker with
  | Raise KeyError => ret None
  | Raise e => raise e
  | Ok sub =>
      stock_df <- copy sub ;;
      close <- get_column stock_df "Close" ;;
      set_column stock_df "Daily Return" (pct_change close) ;;;
      daily <- get_column stock_df "Daily Return" ;;
      set_column stock_df "Volatility"
        (mul_scalar (rolling 21 agg_std daily) (sqrt 252)) ;;;
      close <- get_column stock_df "Close" ;;
      set_column stock_df "SMA_50" (rolling 50 agg_mean close) ;;;
      close <- get_column stock_df "Close" ;;
      set_column stock_df "SMA_200" (rolling 200 agg_mean close) ;;;
      ret (Some stock_df)
  end.

(** ** The KPI row of [main] *)

Record Kpi := mkKpi {
  latest_close : cell;
  latest_volatility : cell;
  ytd_return : cell
}.

(** [(a / b - 1) * 100]; meaningful for a non-zero [b] only. *)
Definition cell_pct (a b : cell) : cell :=
  cell_map2 (fun x y => ((x / y - 1) * 100)%R) a b.

(** [main] up to the three KPI values; [None] is the early [return] after
    [st.error]. *)
Definition main (raw_data : Loc) (selected_ticker : string) : M (option Kpi) :=
  processed_data <- calculate_metrics raw_data selected_ticker ;;
  match processed_data with
  | None => ret None
  | Some pd =>
      close <- get_column pd "Close" ;;
      lc <- lift (iloc close (-1)) ;;
      vol <- get_column pd "Volatility" ;;
      lv <- lift (iloc vol (-1)) ;;
      close <- get_column pd "Close" ;;
      last <- lift (iloc close (-1)) ;;
      close <- get_column pd "Close" ;;
      back <- lift (iloc close (-252)) ;;
      ret (Some (mkKpi lc lv (cell_pct last back)))
  end.

(** ** The cross-ticker correlation engine *)

(** [df[ticker]['Close']]. *)
Definition close_of (df : PriceTable) (ticker : string) : Res Series :=
  match select df ticker with
  | Ok sub => getitem sub "Close"
  | Raise e => Raise e
  end.

(** [close_prices[ticker] = s] where [s] is a series on the index [idx]: a
    frame without rows (as [pd.DataFrame()] is) takes the index of the series;
    a frame with rows aligns the series on its own index, which in
    [calculate_correlation] is that same index. *)
Definition assign (f : Frame) (name : string) (idx : list Date) (s : Series)
  : Frame :=
  let own := match index f with [] => idx | _ :: _ => index f end in
  setitem (mkFrame own (columns f)) name s.

(** One iteration of the loop: the body under [try], then
    [except KeyError: continue]. *)
Definition correlation_step (df : PriceTable) (close_prices : Frame)
  (ticker : string) : Res Frame :=
  let body :=
    if contains df ticker then
      match close_of df ticker with
      | Ok close =>
          Ok (assign close_prices ticker (dates df) (pct_change close))
      | Raise e => Raise e
      end
    else Ok close_prices in
  match body with
  | Raise KeyError => Ok close_prices
  | r => r
  end.

Fixpoint correlation_loop (df : PriceTable) (close_prices : Frame)
  (tickers : list string) : Res Frame :=
  match tickers with
  | [] => Ok close_prices
  | ticker :: rest =>
      match correlation_step df close_prices ticker with
      | Ok f => correlation_loop df f rest
      | Raise e => Raise e
      end
  end.

(** [dropna()]: a row is kept when no column is missing there. *)
Definition row_complete (cols : list (string * Series)) (i : nat) : bool :=
  forallb (fun c => notna (nth i (snd c) None)) cols.

Definition keep_rows {A} (keep : nat -> bool) (l : list A) : list A :=
  map snd (filter (fun p => keep (fst p)) (combine (seq 0 (length l)) l)).

Definition dropna (f : Frame) : Frame :=
  let keep := row_complete (columns f) in
  mkFrame (keep_rows keep (index f))
          (map (fun c => (fst c, keep_rows keep (snd c))) (columns f)).

(** The rows on which both series have a value. *)
Fixpoint paired (x y : Series) : list (R * R) :=
  match x, y with
  | Some a :: x', Some b :: y' => (a, b) :: paired x' y'
  | _ :: x', _ :: y' => paired x' y'
  | _, _ => []
  end.

Definition clip (v : R) : R :=
  if Rlt_dec 1 v then 1%R else if Rlt_dec v (-1) then (-1)%R else v.

(** Sum of the products of the deviations from the two means. *)
Definition sumdev (xs ys : list R) : R :=
  sum (zip_with (fun a b => ((a - mean xs) * (b - mean ys))%R) xs ys).

(** The Pearson kernel of [corr] for one pair of columns, [min_periods = 1]:
    missing with no common observation or a zero divisor, else the
    coefficient clipped to [-1, 1]. *)
Definition nancorr (x y : Series) : cell :=
  let obs := paired x y in
  let xs := map fst obs in
  let ys := map snd obs in
  let minpv := 1 in
  if length obs <? minpv then None
  else
    let divisor := sqrt (ssqdm xs * ssqdm ys) in
    if Req_dec_T divisor 0 then None
    else Some (clip (sumdev xs ys / divisor)).

(** A correlation matrix: the same labels on both axes and a row of values
    per label. *)
Record CorrMatrix := mkCorr {
  labels : list string;
  values : list (list cell)
}.

(** [corr()]: each pair of columns is computed once, for [yi <= xi], and
    written to both [(xi, yi)] and [(yi, xi)]. *)
Definition corr_entry (cols : list Series) (i j : nat) : cell :=
  let xi := Nat.max i j in
  let yi := Nat.min i j in
  nancorr (nth xi cols []) (nth yi cols []).

Definition corr (f : Frame) : CorrMatrix :=
  let cols := map snd (columns f) in
  let K := length cols in
  mkCorr (map fst (columns f))
         (map (fun i => map (corr_entry cols i) (seq 0 K)) (seq 0 K)).

Definition calculate_correlation (df : PriceTable) (tickers : list string)
  : Res CorrMatrix :=
  let close_prices := mkFrame [] [] in
  match correlation_loop df close_prices tickers with
  | Ok close_prices => Ok (corr (dropna close_prices))
  | Raise e => Raise e
  end.

(** ** What [calculate_metrics] builds *)

(** The four column assignments, in the order of the source. *)
Definition with_metrics (sub : Frame) (close : Series) : Frame :=
  let f1 := setitem sub "Daily Return" (pct_change close) in
  let f2 := setitem f1 "Volatility"
              (mul_scalar (rolling 21 agg_std (pct_change close)) (sqrt 252)) in
  let f3 := setitem f2 "SMA_50" (rolling 50 agg_mean close) in
  setitem f3 "SMA_200" (rolling 200 agg_mean close).


(** ** Vocabulary of the specification *)

(** The fields a price table holds per ticker and date, and the columns the
    metrics engine derives. *)
Definition price_fields : list string :=
  ["Open"; "High"; "Low"; "Close"; "Volume"].

Definition derived_fields : list string :=
  ["Daily Return"; "Volatility"; "SMA_50"; "SMA_200"].

Definition price_frame (f : Frame) : Prop :=
  Forall (fun c => In (fst c) price_fields) (columns f).

(** A ticker is present with a closing price. *)
Definition has_close (df : PriceTable) (ticker : string) : bool :=
  match close_of df ticker with
  | Ok _ => true
  | Raise _ => false
  end.

(** Every ticker of the table holds a closing price. *)
Definition closes_everywhere (df : PriceTable) : bool :=
  forallb (fun c => has_close df (fst (fst c))) (tcolumns df).

(** The values [xs] are the [w] observations of [s] that end at and include
    row [i]. *)
Definition window_values (s : Series) (w i : nat) (xs : list R) : Prop :=
  length xs = w /\ w <= S i /\
  forall k, k < w -> nth_error s (S i - w + k) = Some (Some (nth k xs 0%R)).

(** Sample standard deviation, divisor [n - 1]. *)
Definition sample_std (xs : list R) : R :=
  sqrt (sum (map (fun x => Rsqr (x - sum xs / INR (length xs))) xs)
        / (INR (length xs) - 1)).

(** Unweighted mean of [n] values. *)
Definition unweighted_mean (n : nat) (xs : list R) : R :=
  (sum xs / INR n)%R.

(** The daily returns of a ticker that holds a closing price. *)
Definition returns_of (df : PriceTable) (ticker : string) : Series :=
  match close_of df ticker with
  | Ok close => pct_change close
  | Raise _ => []
  end.

(** The tickers of the universe that the table holds, each once, in the
    order in which the universe first names them. *)
Definition add_label (seen : list string) (ticker : string) : list string :=
  if existsb (fun b => String.eqb b ticker) seen then seen
  else seen ++ [ticker].

Definition included (df : PriceTable) (tickers : list string) : list string :=
  fold_left add_label (filter (has_close df) tickers) [].

(** Row [i] is retained when every included ticker has a return there. *)
Definition all_defined_at (df : PriceTable) (tickers : list string) (i : nat)
  : bool :=
  forallb (fun a => notna (nth i (returns_of df a) None))
          (filter (has_close df) tickers).

Definition retained_rows (df : PriceTable) (tickers : list string) : list nat :=
  filter (all_defined_at df tickers) (seq 0 (length (dates df))).

Definition retained_dates (df : PriceTable) (tickers : list string)
  : list Date :=
  map (fun i => nth i (dates df) 0) (retained_rows df tickers).

(** The returns of a ticker restricted to the retained rows. *)
Definition retained_returns (df : PriceTable) (tickers : list string)
  (ticker : string) : list R :=
  valid (map (fun i => nth i (returns_of df ticker) None)
             (retained_rows df tickers)).

(** The return columns of a list of tickers, labelled by ticker. *)
Definition labelled_returns (df : PriceTable) (tickers : list string)
  : list (string * Series) :=
  map (fun a => (a, returns_of df a)) tickers.

(** ** The whole of [main] *)

(** The configured universe. *)
Definition TECH_TICKERS : list string :=
  ["AAPL"; "MSFT"; "NVDA"; "GOOGL"; "AMZN"; "META"; "TSLA";
   "AMD"; "INTC"; "CRM"; "ORCL"; "ADBE"; "CSCO"; "NFLX"; "IBM"].

(** [frame.tail(n)]: the last [n] rows. *)
Definition tail_rows {A} (n : nat) (l : list A) : list A :=
  skipn (length l - n) l.

Definition tail (n : nat) (f : Frame) : Frame :=
  mkFrame (tail_rows n (index f))
          (map (fun c => (fst c, tail_rows n (snd c))) (columns f)).

(** What [main] hands to the page: the KPI row, the series of the two
    charts, the raw data view and the correlation matrix. *)
Record Page := mkPage {
  kpi : Kpi;
  price_trace : Series;
  sma50_trace : Series;
  sma200_trace : Series;
  volatility_trace : Series;
  raw_view : Frame;
  corr_matrix : CorrMatrix
}.

(** [main] from the call of [calculate_metrics] to the heat map; [None] is
    the early [return] after [st.error]. *)
Definition main_page (raw_data : Loc) (selected_ticker : string)
  : M (option Page) :=
  processed_data <- calculate_metrics raw_data selected_ticker ;;
  match processed_data with
  | None => ret None
  | Some pd =>
      close <- get_column pd "Close" ;;
      lc <- lift (iloc close (-1)) ;;
      vol <- get_column pd "Volatility" ;;
      lv <- lift (iloc vol (-1)) ;;
      close <- get_column pd "Close" ;;
      last <- lift (iloc close (-1)) ;;
      close <- get_column pd "Close" ;;
      back <- lift (iloc close (-252)) ;;
      price <- get_column pd "Close" ;;
      sma50 <- get_column pd "SMA_50" ;;
      sma200 <- get_column pd "SMA_200" ;;
      volatility <- get_column pd "Volatility" ;;
      frame <- read_frame pd ;;
      table <- read_table raw_data ;;
      matrix <- lift (calculate_correlation table TECH_TICKERS) ;;
      ret (Some (mkPage (mkKpi lc lv (cell_pct last back))
                        price sma50 sma200 volatility
                        (tail 50 frame) matrix))
  end.
End Engine.

(** Every column of the table has one cell per date. *)
Definition rectangular (df : PriceTable) : Prop :=
  Forall (fun c => length (snd c) = length (dates df)) (tcolumns df).

(** The Pearson correlation coefficient of two samples: the sum of the
    products of the deviations over the product of the root sums of squared
    deviations; undefined when either sample has no spread. *)
Definition pearson (xs ys : list R) : cell :=
  if Req_dec_T (ssqdm xs) 0 then None
  else if Req_dec_T (ssqdm ys) 0 then None
  else Some (sumdev xs ys / (sqrt (ssqdm xs) * sqrt (ssqdm ys)))%R.

(** The entry of a matrix at row [i], column [j]. *)
Definition entry (m : CorrMatrix) (i j : nat) : option cell :=
  match nth_error (values m) i with
  | Some row => nth_error row j
  | None => None
  end.

(** The matrix has [n] rows of [n] entries. *)
Definition square (m : CorrMatrix) (n : nat) : Prop :=
  length (values m) = n /\ Forall (fun row => length row = n) (values m).

(** ** Sample tables *)

(** One ticker whose close never moves. *)
Definition flat_table : PriceTable :=
  mkTable [1; 2; 3]
    [(("A", "Open"), [Some 1%R; Some 1%R; Some 1%R]);
     (("A", "Close"), [Some 1%R; Some 1%R; Some 1%R])].

(** Two tickers over three days. *)
Definition pair_table : PriceTable :=
  mkTable [1; 2; 3]
    [(("A", "Close"), [Some 1%R; Some 2%R; Some 4%R]);
     (("B", "Close"), [Some 2%R; Some 2%R; Some 3%R])].

(** One ticker with exactly 252 closes. *)
Definition year_closes : Series := repeat (Some 1%R) 252.

Definition year_table : PriceTable :=
  mkTable (seq 0 252) [(("A", "Close"), year_closes)].


(** Two tickers that never have a return on the same day. *)
Definition disjoint_table : PriceTable :=
  mkTable [1; 2]
    [(("A", "Close"), [Some 1%R; Some 2%R]);
     (("B", "Close"), [None; Some 3%R])].

(** One ticker that holds an opening price only. *)
Definition open_only_table : PriceTable :=
  mkTable [1; 2] [(("A", "Open"), [Some 1%R; Some 2%R])].

(** [pair_table] with the closes of ticker A doubled. *)
Definition doubled_table : PriceTable :=
  mkTable [1; 2; 3]
    [(("A", "Close"), mul_scalar [Some 1%R; Some 2%R; Some 4%R] 2);
     (("B", "Close"), [Some 2%R; Some 2%R; Some 3%R])].

(** Two configured tickers with 252 closes each, and one that is not
    configured. *)
Definition tech_table : PriceTable :=
  mkTable (seq 0 252)
    [(("MSFT", "Close"), year_closes);
     (("ZZZZ", "Close"), year_closes);
     (("AAPL", "Close"), year_closes)].


(** One ticker whose close swings between 1 and 2 over 22 days. *)
Definition wave_closes : Series :=
  [Some 1%R; Some 2%R; Some 1%R; Some 2%R; Some 1%R; Some 2%R;
   Some 1%R; Some 2%R; Some 1%R; Some 2%R; Some 1%R; Some 2%R;
   Some 1%R; Some 2%R; Some 1%R; Some 2%R; Some 1%R; Some 2%R;
   Some 1%R; Some 2%R; Some 1%R; Some 2%R].

Definition wave_table : PriceTable :=
  mkTable (seq 0 22) [(("A", "Close"), wave_closes)].

(** * Properties *)

(** ** Lists and series *)

Lemma zip_with_length {A B C} (f : A -> B -> C) (l : list A) (m : list B) :
  length (zip_with f l m) = Nat.min (length l) (length m).
Proof.
  revert m; induction l as [|a l IH]; intros [|b m]; simpl; auto.
Qed.

Lemma zip_with_nth_error {A B C} (f : A -> B -> C) l m i a b :
  nth_error l i = Some a -> nth_error m i = Some b ->
  nth_error (zip_with f l m) i = Some (f a b).
Proof.
  revert m i; induction l as [|x l IH]; intros [|y m] [|i]; simpl;
    try discriminate; intros Ha Hb.
  - now inversion Ha; inversion Hb.
  - now apply IH.
Qed.

Lemma removelast_nth_error {A} (l : list A) i :
  S i < length l -> nth_error (removelast l) i = nth_error l i.
Proof.
  revert i; induction l as [|x l IH]; intros i Hi; simpl in *; [lia|].
  destruct l as [|y l]; [simpl in Hi; lia|].
  destruct i as [|i]; [reflexivity|].
  simpl. apply (IH i). simpl in *. lia.
Qed.

Lemma shift_length (s : Series) : length (shift s) = length s.
Proof.
  destruct s as [|c s]; [reflexivity|].
  unfold shift. rewrite removelast_firstn_len.
  cbn [length]. rewrite length_firstn. simpl. lia.
Qed.

Lemma shift_head (s : Series) : s <> [] -> nth_error (shift s) 0 = Some None.
Proof. destruct s; [congruence | reflexivity]. Qed.

Lemma shift_succ (s : Series) i :
  S i < length s -> nth_error (shift s) (S i) = nth_error s i.
Proof.
  destruct s as [|c s]; [simpl; lia|]. intros Hi.
  unfold shift. cbn [nth_error]. now apply removelast_nth_error.
Qed.

Lemma ffill_from_length last s : length (ffill_from last s) = length s.
Proof. revert last; induction s as [|c s IH]; intros; simpl; auto. Qed.

Lemma ffill_from_defined last s i x :
  nth_error s i = Some (Some x) ->
  nth_error (ffill_from last s) i = Some (Some x).
Proof.
  revert last i; induction s as [|c s IH]; intros last [|i]; simpl;
    try discriminate; intros H.
  - inversion H; subst. reflexivity.
  - now apply IH.
Qed.

Lemma sub_scalar_length s k : length (sub_scalar s k) = length s.
Proof. apply length_map. Qed.

Lemma mul_scalar_length s k : length (mul_scalar s k) = length s.
Proof. apply length_map. Qed.

Lemma rolling_length w agg s : length (rolling w agg s) = length s.
Proof. unfold rolling. now rewrite length_map, length_seq. Qed.

Lemma rolling_nth_error w agg s i :
  i < length s ->
  nth_error (rolling w agg s) i =
  Some (let obs := valid (window_at w s i) in
        if length obs <? w then None else agg obs).
Proof.
  intros Hi. unfold rolling.
  rewrite nth_error_map, nth_error_seq.
  destruct (Nat.ltb_spec i (length s)); [reflexivity | lia].
Qed.

Lemma valid_length_le s : length (valid s) <= length s.
Proof.
  induction s as [|[x|] s IH]; simpl; lia.
Qed.

Lemma valid_map_Some xs : valid (map Some xs) = xs.
Proof. induction xs; simpl; congruence. Qed.

Lemma valid_full s :
  length (valid s) = length s -> s = map Some (valid s).
Proof.
  induction s as [|[x|] s IH]; simpl; intros H.
  - reflexivity.
  - f_equal. apply IH. lia.
  - pose proof (valid_length_le s). lia.
Qed.

(** ** Column selection and assignment *)

Lemma named_refl name s : named name (name, s) = true.
Proof. unfold named. simpl. apply String.eqb_refl. Qed.

Lemma find_replace_same name s cols :
  existsb (named name) cols = true ->
  find (named name) (replace_col name s cols) = Some (name, s).
Proof.
  induction cols as [|c cols IH]; simpl; [discriminate|].
  destruct (named name c) eqn:E; simpl.
  - now rewrite named_refl.
  - intros H. now rewrite E, IH.
Qed.

Lemma find_replace_other name other s cols :
  name <> other ->
  find (named other) (replace_col name s cols) = find (named other) cols.
Proof.
  intros Hne. induction cols as [|c cols IH]; simpl; [reflexivity|].
  destruct (named name c) eqn:E; simpl.
  - unfold named in *. simpl.
    apply String.eqb_eq in E.
    destruct (String.eqb_spec name other) as [->|_]; [congruence|].
    destruct (String.eqb_spec (fst c) other) as [E'|_]; congruence.
  - now rewrite IH.
Qed.

Lemma find_none_existsb {A} (p : A -> bool) l :
  existsb p l = false -> find p l = None.
Proof.
  induction l as [|a l IH]; simpl; [reflexivity|].
  destruct (p a); simpl; [discriminate | exact IH].
Qed.

Lemma find_app_fresh {A} (p : A -> bool) l a :
  existsb p l = false -> p a = true -> find p (l ++ [a]) = Some a.
Proof.
  induction l as [|x l IH]; simpl; intros H Ha.
  - now rewrite Ha.
  - destruct (p x); simpl in *; [discriminate | now apply IH].
Qed.

Lemma find_app_other {A} (p : A -> bool) l a :
  p a = false -> find p (l ++ [a]) = find p l.
Proof.
  intros Ha. induction l as [|x l IH]; simpl.
  - now rewrite Ha.
  - now rewrite IH.
Qed.

Lemma getitem_setitem_same f name s : getitem (setitem f name s) name = Ok s.
Proof.
  unfold getitem, setitem.
  destruct (existsb (named name) (columns f)) eqn:E; simpl.
  - now rewrite find_replace_same.
  - rewrite find_app_fresh; auto using named_refl.
Qed.

Lemma getitem_setitem_other f name other s :
  name <> other -> getitem (setitem f name s) other = getitem f other.
Proof.
  intros Hne. unfold getitem, setitem.
  destruct (existsb (named name) (columns f)) eqn:E; simpl.
  - now rewrite find_replace_other.
  - rewrite find_app_other; [reflexivity|].
    unfold named; simpl. now apply String.eqb_neq.
Qed.

Lemma index_setitem f name s : index (setitem f name s) = index f.
Proof. unfold setitem. now destruct (existsb _ _). Qed.

Lemma setitem_fresh f name s :
  existsb (named name) (columns f) = false ->
  setitem f name s = mkFrame (index f) (columns f ++ [(name, s)]).
Proof. intros H. unfold setitem. now rewrite H. Qed.

(** ** The heap *)

Lemma nth_error_last (h : Heap) o : nth_error (h ++ [o]) (length h) = Some o.
Proof.
  rewrite nth_error_app2 by lia. now rewrite Nat.sub_diag.
Qed.

Lemma update_last (h : Heap) o o' : update (h ++ [o]) (length h) o' = h ++ [o'].
Proof. induction h as [|x h IH]; simpl; [reflexivity | now rewrite IH]. Qed.

Lemma get_column_last h f name :
  get_column (length h) name (h ++ [OFrame f]) =
  (getitem f name, h ++ [OFrame f]).
Proof.
  unfold get_column, bind, read_frame, lift.
  now rewrite nth_error_last.
Qed.

Lemma set_column_last h f name s :
  set_column (length h) name s (h ++ [OFrame f]) =
  (Ok tt, h ++ [OFrame (setitem f name s)]).
Proof.
  unfold set_column, bind, read_frame.
  now rewrite nth_error_last, update_last.
Qed.

Lemma bind_eq {A B} (m : M A) (k : A -> M B) h :
  bind m k h =
  match m h with
  | (Ok a, h') => k a h'
  | (Raise e, h') => (Raise e, h')
  end.
Proof. reflexivity. Qed.

Section EngineProperties.

Variable fill_pad : bool.

(** ** The result of [calculate_metrics] *)

Lemma select_absent t ticker :
  contains t ticker = false -> select t ticker = Raise KeyError.
Proof.
  unfold contains, select. intros H.
  assert (E : filter (of_ticker ticker) (tcolumns t) = []).
  { induction (tcolumns t) as [|c l IH]; simpl in *; [reflexivity|].
    destruct (of_ticker ticker c); simpl in *; [discriminate | auto]. }
  now rewrite E.
Qed.

Lemma select_present t ticker :
  contains t ticker = true ->
  exists sub, select t ticker = Ok sub /\ index sub = dates t.
Proof.
  unfold contains, select. intros H.
  destruct (filter (of_ticker ticker) (tcolumns t)) as [|c cs] eqn:E.
  - exfalso. apply existsb_exists in H as (c & Hin & Hc).
    assert (Hf : In c (filter (of_ticker ticker) (tcolumns t)))
      by (apply filter_In; auto).
    rewrite E in Hf. exact Hf.
  - eexists; split; reflexivity.
Qed.

Lemma select_index t ticker sub :
  select t ticker = Ok sub -> index sub = dates t.
Proof.
  unfold select.
  destruct (filter _ _); [discriminate|]. intros H; inversion H; reflexivity.
Qed.

Lemma select_Ok_contains t ticker sub :
  select t ticker = Ok sub -> contains t ticker = true.
Proof.
  intros H. destruct (contains t ticker) eqn:E; [reflexivity|].
  rewrite (select_absent _ _ E) in H. discriminate.
Qed.

Lemma calculate_metrics_absent h df t ticker :
  nth_error h df = Some (OTable t) ->
  contains t ticker = false ->
  calculate_metrics fill_pad df ticker h = (Ok None, h).
Proof.
  intros Hdf Habs. unfold calculate_metrics.
  rewrite bind_eq. unfold read_table. rewrite Hdf.
  now rewrite (select_absent _ _ Habs).
Qed.

Lemma calculate_metrics_present h df t ticker sub close :
  nth_error h df = Some (OTable t) ->
  select t ticker = Ok sub ->
  getitem sub "Close" = Ok close ->
  calculate_metrics fill_pad df ticker h =
  (Ok (Some (length h)), h ++ [OFrame (with_metrics fill_pad sub close)]).
Proof.
  intros Hdf Hsel Hclose. unfold calculate_metrics.
  rewrite bind_eq. unfold read_table. rewrite Hdf, Hsel.
  rewrite bind_eq. unfold copy, alloc.
  rewrite bind_eq, get_column_last, Hclose.
  rewrite bind_eq, set_column_last.
  rewrite bind_eq, get_column_last, getitem_setitem_same.
  rewrite bind_eq, set_column_last.
  rewrite bind_eq, get_column_last.
  rewrite !getitem_setitem_other, Hclose by discriminate.
  rewrite bind_eq, set_column_last.
  rewrite bind_eq, get_column_last.
  rewrite !getitem_setitem_other, Hclose by discriminate.
  rewrite bind_eq, set_column_last.
  reflexivity.
Qed.

Lemma calculate_metrics_no_close h df t ticker sub :
  nth_error h df = Some (OTable t) ->
  select t ticker = Ok sub ->
  getitem sub "Close" = Raise KeyError ->
  calculate_metrics fill_pad df ticker h = (Raise KeyError, h ++ [OFrame sub]).
Proof.
  intros Hdf Hsel Hclose. unfold calculate_metrics.
  rewrite bind_eq. unfold read_table. rewrite Hdf, Hsel.
  rewrite bind_eq. unfold copy, alloc.
  rewrite bind_eq, get_column_last, Hclose. reflexivity.
Qed.

Lemma with_metrics_index sub close : index (with_metrics fill_pad sub close) = index sub.
Proof. unfold with_metrics. now rewrite !index_setitem. Qed.

Lemma with_metrics_close sub close :
  getitem sub "Close" = Ok close ->
  getitem (with_metrics fill_pad sub close) "Close" = Ok close.
Proof.
  intros H. unfold with_metrics.
  now rewrite !getitem_setitem_other by discriminate.
Qed.

Lemma with_metrics_daily sub close :
  getitem (with_metrics fill_pad sub close) "Daily Return" = Ok (pct_change fill_pad close).
Proof.
  unfold with_metrics.
  rewrite !getitem_setitem_other by discriminate.
  apply getitem_setitem_same.
Qed.

Lemma with_metrics_volatility sub close :
  getitem (with_metrics fill_pad sub close) "Volatility" =
  Ok (mul_scalar (rolling 21 agg_std (pct_change fill_pad close)) (sqrt 252)).
Proof.
  unfold with_metrics.
  rewrite !getitem_setitem_other by discriminate.
  apply getitem_setitem_same.
Qed.

Lemma with_metrics_sma50 sub close :
  getitem (with_metrics fill_pad sub close) "SMA_50" = Ok (rolling 50 agg_mean close).
Proof.
  unfold with_metrics.
  rewrite !getitem_setitem_other by discriminate.
  apply getitem_setitem_same.
Qed.

Lemma with_metrics_sma200 sub close :
  getitem (with_metrics fill_pad sub close) "SMA_200" = Ok (rolling 200 agg_mean close).
Proof. unfold with_metrics. apply getitem_setitem_same. Qed.

End EngineProperties.

(** ** Positional access *)

Lemma iloc_from_end (s : Series) (k : nat) :
  0 < k ->
  iloc s (- Z.of_nat k) =
  if k <=? length s then Ok (nth (length s - k) s None) else Raise IndexError.
Proof.
  intros Hk. unfold iloc.
  assert (Hneg : (- Z.of_nat k <? 0)%Z = true) by (apply Z.ltb_lt; lia).
  rewrite Hneg.
  destruct (Nat.leb_spec k (length s)) as [Hle|Hgt].
  - assert (Hin : ((0 <=? Z.of_nat (length s) + - Z.of_nat k) &&
                   (Z.of_nat (length s) + - Z.of_nat k <? Z.of_nat (length s)))%Z
                  = true).
    { apply andb_true_iff; split; [apply Z.leb_le | apply Z.ltb_lt]; lia. }
    rewrite Hin.
    replace (Z.to_nat (Z.of_nat (length s) + - Z.of_nat k))
      with (length s - k) by lia.
    destruct (nth_error s (length s - k)) as [c|] eqn:E.
    + now rewrite (nth_error_nth _ _ _ E).
    + apply nth_error_None in E. lia.
  - assert (Hout : (0 <=? Z.of_nat (length s) + - Z.of_nat k)%Z = false)
      by (apply Z.leb_gt; lia).
    now rewrite Hout.
Qed.

Section MetricsClaims.

Variable fill_pad : bool.

Lemma close_of_inv t ticker close :
  close_of t ticker = Ok close ->
  exists sub, select t ticker = Ok sub /\ getitem sub "Close" = Ok close.
Proof.
  unfold close_of. destruct (select t ticker) as [sub|e]; [|discriminate].
  intros H. now exists sub.
Qed.

Lemma closes_everywhere_close t ticker :
  closes_everywhere t = true -> contains t ticker = true ->
  exists close, close_of t ticker = Ok close.
Proof.
  unfold closes_everywhere, contains. intros Hall Hin.
  apply existsb_exists in Hin as (c & Hc & Heq).
  rewrite forallb_forall in Hall. specialize (Hall c Hc).
  unfold of_ticker in Heq. apply String.eqb_eq in Heq. rewrite Heq in Hall.
  unfold has_close in Hall.
  destruct (close_of t ticker) as [close|]; [now exists close | discriminate].
Qed.

Lemma pct_change_length s : length (pct_change fill_pad s) = length s.
Proof.
  unfold pct_change.
  rewrite sub_scalar_length, zip_with_length, shift_length, Nat.min_id.
  destruct fill_pad; [apply ffill_from_length | reflexivity].
Qed.

Lemma pct_change_head s :
  s <> [] -> nth_error (pct_change fill_pad s) 0 = Some None.
Proof.
  intros Hs. unfold pct_change.
  set (data := if fill_pad then ffill s else s).
  assert (Hd : data <> []).
  { subst data. destruct fill_pad; [|exact Hs].
    destruct s; [congruence | discriminate]. }
  destruct data as [|c data']; [congruence|].
  simpl. now destruct c.
Qed.

Lemma pct_change_succ s i a b :
  nth_error s i = Some (Some b) ->
  nth_error s (S i) = Some (Some a) ->
  nth_error (pct_change fill_pad s) (S i) = Some (Some (a / b - 1)%R).
Proof.
  intros Hb Ha. unfold pct_change.
  set (data := if fill_pad then ffill s else s).
  assert (Hb' : nth_error data i = Some (Some b)).
  { subst data. destruct fill_pad; [now apply ffill_from_defined | exact Hb]. }
  assert (Ha' : nth_error data (S i) = Some (Some a)).
  { subst data. destruct fill_pad; [now apply ffill_from_defined | exact Ha]. }
  assert (Hlen : S i < length data).
  { apply nth_error_Some. congruence. }
  unfold sub_scalar.
  rewrite (map_nth_error _ _ _ (d := cell_div (Some a) (Some b)));
    [reflexivity|].
  apply zip_with_nth_error; [exact Ha'|].
  now rewrite shift_succ.
Qed.

(** C3.  On a table whose tickers all hold a closing price,
    [calculate_metrics] returns [None] with the heap as it was exactly when
    the ticker is absent from the table, and returns a frame on the table's
    dates with the columns Close, Daily Return, Volatility, SMA_50 and
    SMA_200, one value per row each, exactly when the ticker is present. *)
Theorem C3_not_found_iff_absent h df t ticker :
  nth_error h df = Some (OTable t) ->
  closes_everywhere t = true ->
  (contains t ticker = false <->
   calculate_metrics fill_pad df ticker h = (Ok None, h)) /\
  (contains t ticker = true <->
   exists f close daily vol sma50 sma200,
     calculate_metrics fill_pad df ticker h =
       (Ok (Some (length h)), h ++ [OFrame f]) /\
     index f = dates t /\
     getitem f "Close" = Ok close /\
     getitem f "Daily Return" = Ok daily /\
     getitem f "Volatility" = Ok vol /\
     getitem f "SMA_50" = Ok sma50 /\
     getitem f "SMA_200" = Ok sma200 /\
     length daily = length close /\ length vol = length close /\
     length sma50 = length close /\ length sma200 = length close).
Proof.
  intros Hdf Hwf.
  assert (Hpres : contains t ticker = true ->
    exists f close daily vol sma50 sma200,
     calculate_metrics fill_pad df ticker h =
       (Ok (Some (length h)), h ++ [OFrame f]) /\
     index f = dates t /\
     getitem f "Close" = Ok close /\
     getitem f "Daily Return" = Ok daily /\
     getitem f "Volatility" = Ok vol /\
     getitem f "SMA_50" = Ok sma50 /\
     getitem f "SMA_200" = Ok sma200 /\
     length daily = length close /\ length vol = length close /\
     length sma50 = length close /\ length sma200 = length close).
  { intros Hin.
    destruct (closes_everywhere_close _ _ Hwf Hin) as (close & Hc).
    destruct (close_of_inv _ _ _ Hc) as (sub & Hsel & Hclose).
    exists (with_metrics fill_pad sub close), close.
    do 4 eexists.
    split; [now apply calculate_metrics_present with (t := t)|].
    split; [rewrite with_metrics_index; now apply select_index with ticker|].
    split; [now apply with_metrics_close|].
    split; [apply with_metrics_daily|].
    split; [apply with_metrics_volatility|].
    split; [apply with_metrics_sma50|].
    split; [apply with_metrics_sma200|].
    rewrite mul_scalar_length, !rolling_length, pct_change_length. auto. }
  split; split.
  - intros Habs. now apply calculate_metrics_absent with (t := t).
  - intros Hres. destruct (contains t ticker) eqn:E; [|reflexivity].
    destruct (Hpres eq_refl) as (f & ? & ? & ? & ? & ? & Hrun & _).
    rewrite Hrun in Hres. discriminate.
  - exact Hpres.
  - intros (f & ? & ? & ? & ? & ? & Hrun & _).
    destruct (contains t ticker) eqn:E; [reflexivity|].
    rewrite (calculate_metrics_absent _ _ _ _ _ Hdf E) in Hrun. discriminate.
Qed.

(** C8.  For a ticker present with close series [close], the Daily Return
    column has a row per close; its first row is missing, and at every later
    row whose close is a number [a] and whose previous close is a non-zero
    number [b] it holds [a / b - 1]. *)
Theorem C8_daily_return h df t ticker close :
  nth_error h df = Some (OTable t) ->
  close_of t ticker = Ok close ->
  exists f daily,
    calculate_metrics fill_pad df ticker h =
      (Ok (Some (length h)), h ++ [OFrame f]) /\
    getitem f "Close" = Ok close /\
    getitem f "Daily Return" = Ok daily /\
    length daily = length close /\
    (close <> [] -> nth_error daily 0 = Some None) /\
    (forall i a b,
        nth_error close i = Some (Some b) ->
        b <> 0%R ->
        nth_error close (S i) = Some (Some a) ->
        nth_error daily (S i) = Some (Some (a / b - 1)%R)).
Proof.
  intros Hdf Hc.
  destruct (close_of_inv _ _ _ Hc) as (sub & Hsel & Hclose).
  exists (with_metrics fill_pad sub close), (pct_change fill_pad close).
  split; [now apply calculate_metrics_present with (t := t)|].
  split; [now apply with_metrics_close|].
  split; [apply with_metrics_daily|].
  split; [apply pct_change_length|].
  split; [apply pct_change_head|].
  intros i a b Hb _ Ha. now apply pct_change_succ.
Qed.

Lemma fresh_in_price_frame cols name :
  Forall (fun c : string * Series => In (fst c) price_fields) cols ->
  ~ In name price_fields ->
  existsb (named name) cols = false.
Proof.
  intros Hall Hname. induction Hall as [|c cols Hc _ IH]; [reflexivity|].
  simpl. rewrite IH, orb_false_r.
  unfold named. apply String.eqb_neq. intros E. apply Hname. now rewrite <- E.
Qed.

Lemma with_metrics_columns sub close :
  price_frame sub ->
  columns (with_metrics fill_pad sub close) =
  columns sub ++
  [("Daily Return", pct_change fill_pad close);
   ("Volatility",
    mul_scalar (rolling 21 agg_std (pct_change fill_pad close)) (sqrt 252));
   ("SMA_50", rolling 50 agg_mean close);
   ("SMA_200", rolling 200 agg_mean close)].
Proof.
  intros Hpf. unfold with_metrics.
  assert (Hfresh : forall name, In name derived_fields ->
                     existsb (named name) (columns sub) = false).
  { intros name Hin. apply fresh_in_price_frame; [exact Hpf|].
    simpl in Hin. simpl.
    intuition (subst; discriminate). }
  rewrite (setitem_fresh sub "Daily Return")
    by (apply Hfresh; simpl; auto).
  rewrite (setitem_fresh _ "Volatility")
    by (simpl; rewrite existsb_app, Hfresh by (simpl; auto); reflexivity).
  rewrite (setitem_fresh _ "SMA_50")
    by (simpl; rewrite !existsb_app, Hfresh by (simpl; auto); reflexivity).
  rewrite (setitem_fresh _ "SMA_200")
    by (simpl; rewrite !existsb_app, Hfresh by (simpl; auto); reflexivity).
  simpl. now rewrite <- !app_assoc.
Qed.

(** C10.  For a ticker present with price columns [sub], [calculate_metrics]
    returns a new frame on the same date index whose columns are those of
    [sub], unchanged and in order, followed by exactly Daily Return,
    Volatility, SMA_50 and SMA_200, each with as many rows as Close; every
    object that was on the heap, the price table among them, is left as it
    was. *)
Theorem C10_metrics_frame h df t ticker sub close :
  nth_error h df = Some (OTable t) ->
  select t ticker = Ok sub ->
  getitem sub "Close" = Ok close ->
  price_frame sub ->
  exists h' f daily vol sma50 sma200,
    calculate_metrics fill_pad df ticker h = (Ok (Some (length h)), h') /\
    (forall l o, nth_error h l = Some o -> nth_error h' l = Some o) /\
    nth_error h' df = Some (OTable t) /\
    nth_error h' (length h) = Some (OFrame f) /\
    index f = index sub /\ index f = dates t /\
    columns f = columns sub ++
      [("Daily Return", daily); ("Volatility", vol);
       ("SMA_50", sma50); ("SMA_200", sma200)] /\
    length daily = length close /\ length vol = length close /\
    length sma50 = length close /\ length sma200 = length close.
Proof.
  intros Hdf Hsel Hclose Hpf.
  assert (Hframe : forall l o,
             nth_error h l = Some o ->
             nth_error (h ++ [OFrame (with_metrics fill_pad sub close)]) l
             = Some o).
  { intros l o Hl. rewrite nth_error_app1; [exact Hl|].
    apply nth_error_Some. congruence. }
  exists (h ++ [OFrame (with_metrics fill_pad sub close)]).
  exists (with_metrics fill_pad sub close).
  do 4 eexists.
  split; [now apply calculate_metrics_present with (t := t)|].
  split; [exact Hframe|].
  split; [now apply Hframe|].
  split; [apply nth_error_last|].
  split; [apply with_metrics_index|].
  split; [rewrite with_metrics_index; now apply select_index with ticker|].
  split; [now apply with_metrics_columns|].
  rewrite mul_scalar_length, !rolling_length, pct_change_length. auto.
Qed.

Lemma main_present h df t ticker sub close :
  nth_error h df = Some (OTable t) ->
  select t ticker = Ok sub ->
  getitem sub "Close" = Ok close ->
  fst (main fill_pad df ticker h) =
  if 252 <=? length close then
    Ok (Some (mkKpi
          (nth (length close - 1) close None)
          (nth (length close - 1)
             (mul_scalar (rolling 21 agg_std (pct_change fill_pad close))
                (sqrt 252)) None)
          (cell_pct (nth (length close - 1) close None)
                    (nth (length close - 252) close None))))
  else Raise IndexError.
Proof.
  intros Hdf Hsel Hclose. unfold main.
  rewrite bind_eq, (calculate_metrics_present _ _ _ _ _ _ _ Hdf Hsel Hclose).
  rewrite bind_eq, get_column_last, with_metrics_close by exact Hclose.
  rewrite bind_eq. unfold lift at 1.
  change (-1)%Z with (- Z.of_nat 1)%Z.
  rewrite iloc_from_end by lia.
  destruct (Nat.leb_spec 1 (length close)) as [H1|H1].
  2:{ destruct (Nat.leb_spec 252 (length close)); [lia | reflexivity]. }
  rewrite bind_eq, get_column_last, with_metrics_volatility.
  rewrite bind_eq. unfold lift at 1.
  rewrite iloc_from_end by lia.
  rewrite mul_scalar_length, rolling_length, pct_change_length.
  destruct (Nat.leb_spec 1 (length close)) as [_|]; [|lia].
  rewrite bind_eq, get_column_last, with_metrics_close by exact Hclose.
  rewrite bind_eq. unfold lift at 1.
  rewrite iloc_from_end by lia.
  destruct (Nat.leb_spec 1 (length close)) as [_|]; [|lia].
  rewrite bind_eq, get_column_last, with_metrics_close by exact Hclose.
  rewrite bind_eq. unfold lift at 1.
  change (-252)%Z with (- Z.of_nat 252)%Z.
  rewrite iloc_from_end by lia.
  destruct (Nat.leb_spec 252 (length close)); reflexivity.
Qed.

(** C1.  For a ticker present with close series [close], the KPI row fails
    with [IndexError] whenever the series has fewer than 252 rows; with 252
    rows or more it returns, and the 1-year return is
    [(close[n-1] / close[n-252] - 1) * 100], the row read by the
    from-the-end index [-252]. *)
Theorem C1_one_year_return h df t ticker close :
  nth_error h df = Some (OTable t) ->
  close_of t ticker = Ok close ->
  (length close < 252 ->
   fst (main fill_pad df ticker h) = Raise IndexError) /\
  (252 <= length close ->
   exists kpi,
     fst (main fill_pad df ticker h) = Ok (Some kpi) /\
     ytd_return kpi =
       cell_pct (nth (length close - 1) close None)
                (nth (length close - 252) close None)).
Proof.
  intros Hdf Hc.
  destruct (close_of_inv _ _ _ Hc) as (sub & Hsel & Hclose).
  pose proof (main_present _ _ _ _ _ _ Hdf Hsel Hclose) as Hmain.
  split; intros Hlen.
  - destruct (Nat.leb_spec 252 (length close)); [lia | exact Hmain].
  - destruct (Nat.leb_spec 252 (length close)); [|lia].
    eexists; split; [exact Hmain | reflexivity].
Qed.

End MetricsClaims.

(** ** Rolling windows *)

Lemma window_at_nth_error w s i k :
  nth_error (window_at w s i) k =
  if k <? S i - (S i - w) then nth_error s (S i - w + k) else None.
Proof.
  unfold window_at. rewrite nth_error_firstn.
  destruct (k <? S i - (S i - w)); [apply nth_error_skipn | reflexivity].
Qed.

Lemma window_at_length_le w s i : length (window_at w s i) <= w.
Proof.
  unfold window_at. rewrite length_firstn. lia.
Qed.

Lemma window_at_values w s i xs :
  window_values s w i xs -> window_at w s i = map Some xs.
Proof.
  intros (Hlen & Hw & Hnth). apply nth_error_ext. intros k.
  rewrite window_at_nth_error, nth_error_map.
  replace (S i - (S i - w)) with w by lia.
  destruct (Nat.ltb_spec k w) as [Hk|Hk].
  - rewrite (Hnth k Hk).
    rewrite (nth_error_nth' xs 0%R) by lia. reflexivity.
  - assert (E : nth_error xs k = None) by (apply nth_error_None; lia).
    now rewrite E.
Qed.

Lemma window_values_row s w i xs :
  0 < w -> window_values s w i xs -> i < length s.
Proof.
  intros Hw (Hlen & Hle & Hnth).
  apply nth_error_Some.
  specialize (Hnth (w - 1)). replace (S i - w + (w - 1)) with i in Hnth by lia.
  rewrite Hnth by lia. discriminate.
Qed.

(** A row whose window is full of values aggregates exactly those values. *)
Lemma rolling_window w agg s i xs :
  0 < w -> window_values s w i xs ->
  nth_error (rolling w agg s) i = Some (agg xs).
Proof.
  intros Hw Hwin.
  rewrite rolling_nth_error by (now apply window_values_row with w xs).
  cbv zeta. rewrite (window_at_values _ _ _ _ Hwin), valid_map_Some.
  destruct Hwin as (Hlen & _). rewrite Hlen, Nat.ltb_irrefl. reflexivity.
Qed.

(** A row with a value has a window full of values. *)
Lemma rolling_value_window w agg s i v :
  nth_error (rolling w agg s) i = Some (Some v) ->
  exists xs, window_values s w i xs.
Proof.
  intros Hv.
  assert (Hi : i < length s).
  { rewrite <- (rolling_length w agg). apply nth_error_Some. congruence. }
  rewrite rolling_nth_error in Hv by exact Hi. cbv zeta in Hv.
  destruct (Nat.ltb_spec (length (valid (window_at w s i))) w) as [|Hfull];
    [discriminate|].
  pose proof (valid_length_le (window_at w s i)) as Hle.
  pose proof (window_at_length_le w s i) as Hle'.
  assert (Hwl : length (window_at w s i) = w) by lia.
  assert (Hall : window_at w s i = map Some (valid (window_at w s i))).
  { apply valid_full. lia. }
  assert (Hw : w <= S i).
  { unfold window_at in Hwl. rewrite length_firstn in Hwl. lia. }
  exists (valid (window_at w s i)). split; [lia|]. split; [exact Hw|].
  intros k Hk.
  pose proof (window_at_nth_error w s i k) as E.
  replace (S i - (S i - w)) with w in E by lia.
  destruct (Nat.ltb_spec k w); [|lia].
  rewrite <- E, Hall at 1. rewrite nth_error_map.
  rewrite (nth_error_nth' _ 0%R) by lia. reflexivity.
Qed.

Lemma rolling_no_window w agg s i :
  i < length s ->
  (~ exists xs, window_values s w i xs) ->
  nth_error (rolling w agg s) i = Some None.
Proof.
  intros Hi Hno.
  destruct (nth_error (rolling w agg s) i) as [[v|]|] eqn:E.
  - exfalso. apply Hno. now apply rolling_value_window with agg v.
  - reflexivity.
  - apply nth_error_None in E. rewrite rolling_length in E. lia.
Qed.

Lemma agg_std_sample xs :
  1 < length xs -> agg_std xs = Some (sample_std xs).
Proof.
  intros Hlen. unfold agg_std, ddof, sample_std.
  destruct (Nat.leb_spec (length xs) 1); [lia|].
  rewrite minus_INR by lia. reflexivity.
Qed.

Lemma agg_mean_unweighted n xs :
  0 < n -> length xs = n -> agg_mean xs = Some (unweighted_mean n xs).
Proof.
  intros Hn Hlen. unfold agg_mean, unweighted_mean, mean.
  rewrite Hlen. destruct (Nat.eqb_spec n 0); [lia | reflexivity].
Qed.

Lemma mul_scalar_nth_error s k i c :
  nth_error s i = Some c ->
  nth_error (mul_scalar s k) i = Some (option_map (fun x => (x * k)%R) c).
Proof. intros H. unfold mul_scalar. now apply map_nth_error. Qed.

Section RollingClaims.

Variable fill_pad : bool.

(** C4.  For a ticker present in the table, the Volatility column has a row
    per daily return.  At a row whose trailing window of 21 daily returns,
    ending at and including that row, consists of the values [xs], it holds
    the sample standard deviation of [xs] (divisor 20) times the square root
    of 252; at every row without such a window it is missing. *)
Theorem C4_volatility h df t ticker close :
  nth_error h df = Some (OTable t) ->
  close_of t ticker = Ok close ->
  exists f daily vol,
    calculate_metrics fill_pad df ticker h =
      (Ok (Some (length h)), h ++ [OFrame f]) /\
    getitem f "Daily Return" = Ok daily /\
    getitem f "Volatility" = Ok vol /\
    length daily = length close /\ length vol = length daily /\
    (forall i xs,
        window_values daily 21 i xs ->
        nth_error vol i = Some (Some (sample_std xs * sqrt 252)%R)) /\
    (forall i,
        i < length daily ->
        (~ exists xs, window_values daily 21 i xs) ->
        nth_error vol i = Some None).
Proof.
  intros Hdf Hc.
  destruct (close_of_inv _ _ _ Hc) as (sub & Hsel & Hclose).
  exists (with_metrics fill_pad sub close), (pct_change fill_pad close).
  eexists.
  split; [now apply calculate_metrics_present with (t := t)|].
  split; [apply with_metrics_daily|].
  split; [apply with_metrics_volatility|].
  split; [apply pct_change_length|].
  split; [now rewrite mul_scalar_length, rolling_length|].
  split.
  - intros i xs Hwin.
    erewrite mul_scalar_nth_error
      by (apply rolling_window; [lia | exact Hwin]).
    rewrite agg_std_sample by (destruct Hwin as (-> & _); lia).
    reflexivity.
  - intros i Hi Hno.
    erewrite mul_scalar_nth_error
      by (apply rolling_no_window; [exact Hi | exact Hno]).
    reflexivity.
Qed.

(** C9.  For a ticker present in the table, the SMA_50 (resp. SMA_200)
    column has a row per close.  At a row whose trailing window of 50 (resp.
    200) closes, ending at and including that row, consists of the values
    [xs], it holds their unweighted mean; at every row without such a window
    it is missing. *)
Theorem C9_moving_averages h df t ticker close :
  nth_error h df = Some (OTable t) ->
  close_of t ticker = Ok close ->
  exists f sma50 sma200,
    calculate_metrics fill_pad df ticker h =
      (Ok (Some (length h)), h ++ [OFrame f]) /\
    getitem f "Close" = Ok close /\
    getitem f "SMA_50" = Ok sma50 /\
    getitem f "SMA_200" = Ok sma200 /\
    length sma50 = length close /\ length sma200 = length close /\
    (forall i xs,
        window_values close 50 i xs ->
        nth_error sma50 i = Some (Some (unweighted_mean 50 xs))) /\
    (forall i,
        i < length close ->
        (~ exists xs, window_values close 50 i xs) ->
        nth_error sma50 i = Some None) /\
    (forall i xs,
        window_values close 200 i xs ->
        nth_error sma200 i = Some (Some (unweighted_mean 200 xs))) /\
    (forall i,
        i < length close ->
        (~ exists xs, window_values close 200 i xs) ->
        nth_error sma200 i = Some None).
Proof.
  intros Hdf Hc.
  destruct (close_of_inv _ _ _ Hc) as (sub & Hsel & Hclose).
  exists (with_metrics fill_pad sub close).
  do 2 eexists.
  split; [now apply calculate_metrics_present with (t := t)|].
  split; [now apply with_metrics_close|].
  split; [apply with_metrics_sma50|].
  split; [apply with_metrics_sma200|].
  split; [apply rolling_length|].
  split; [apply rolling_length|].
  repeat split.
  - intros i xs Hwin.
    rewrite (rolling_window 50 agg_mean close i xs) by (lia || exact Hwin).
    rewrite (agg_mean_unweighted 50) by (lia || apply Hwin). reflexivity.
  - intros i Hi Hno. now apply rolling_no_window.
  - intros i xs Hwin.
    rewrite (rolling_window 200 agg_mean close i xs) by (lia || exact Hwin).
    rewrite (agg_mean_unweighted 200) by (lia || apply Hwin). reflexivity.
  - intros i Hi Hno. now apply rolling_no_window.
Qed.

End RollingClaims.

(** ** Sums, deviations and the Pearson kernel *)

Local Open Scope R_scope.

Lemma sum_map_squares_nonneg {T} (f : T -> R) (l : list T) :
  0 <= sum (map (fun p => f p * f p) l).
Proof.
  induction l as [|p l IH]; simpl; [lra|].
  pose proof (Rle_0_sqr (f p)) as H. unfold Rsqr in H. lra.
Qed.

Lemma sum_map_quadratic {T} (f g : T -> R) (l : list T) (t : R) :
  sum (map (fun p => (f p * t + g p) * (f p * t + g p)) l) =
  sum (map (fun p => f p * f p) l) * t * t
  + 2 * sum (map (fun p => f p * g p) l) * t
  + sum (map (fun p => g p * g p) l).
Proof.
  induction l as [|p l IH]; simpl; [ring|]. rewrite IH. ring.
Qed.

(** The Cauchy-Schwarz inequality for two families indexed by one list. *)
Lemma cauchy_schwarz {T} (f g : T -> R) (l : list T) :
  sum (map (fun p => f p * g p) l) * sum (map (fun p => f p * g p) l) <=
  sum (map (fun p => f p * f p) l) * sum (map (fun p => g p * g p) l).
Proof.
  set (A := sum (map (fun p => f p * f p) l)).
  set (B := sum (map (fun p => f p * g p) l)).
  set (C := sum (map (fun p => g p * g p) l)).
  assert (HA : 0 <= A) by apply sum_map_squares_nonneg.
  assert (HQ : forall t, 0 <= A * t * t + 2 * B * t + C).
  { intros t. unfold A, B, C. rewrite <- sum_map_quadratic.
    apply (sum_map_squares_nonneg (fun p => f p * t + g p)). }
  destruct (Req_dec A 0) as [HA0|HA0].
  - assert (HB : B = 0).
    { destruct (Req_dec B 0) as [|HB]; [assumption|]. exfalso.
      specialize (HQ (- (C + 1) / (2 * B))).
      rewrite HA0 in HQ.
      replace (0 * (- (C + 1) / (2 * B)) * (- (C + 1) / (2 * B))
               + 2 * B * (- (C + 1) / (2 * B)) + C) with (-1) in HQ
        by (field; exact HB).
      lra. }
    rewrite HB, HA0. lra.
  - assert (HApos : 0 < A) by lra.
    specialize (HQ (- B / A)).
    assert (E : A * (A * (- B / A) * (- B / A) + 2 * B * (- B / A) + C)
                = A * C - B * B) by (field; exact HA0).
    assert (0 <= A * (A * (- B / A) * (- B / A) + 2 * B * (- B / A) + C))
      by (apply Rmult_le_pos; lra).
    lra.
Qed.

Lemma zip_with_combine {A B C} (f : A -> B -> C) (l : list A) (m : list B) :
  zip_with f l m = map (fun p => f (fst p) (snd p)) (combine l m).
Proof.
  revert m; induction l as [|a l IH]; intros [|b m]; simpl; auto.
  now rewrite IH.
Qed.

Lemma map_fst_combine_eq {A B} (l : list A) (m : list B) :
  length l = length m -> map fst (combine l m) = l.
Proof.
  revert m; induction l as [|a l IH]; intros [|b m]; simpl;
    try discriminate; auto.
  intros H. now rewrite IH by lia.
Qed.

Lemma map_snd_combine_eq {A B} (l : list A) (m : list B) :
  length l = length m -> map snd (combine l m) = m.
Proof.
  revert m; induction l as [|a l IH]; intros [|b m]; simpl;
    try discriminate; auto.
  intros H. now rewrite IH by lia.
Qed.

Lemma ssqdm_nonneg xs : 0 <= ssqdm xs.
Proof.
  unfold ssqdm. apply (sum_map_squares_nonneg (fun x => x - mean xs)).
Qed.

Lemma ssqdm_nil : ssqdm [] = 0.
Proof. reflexivity. Qed.


Lemma sumdev_sym xs ys : sumdev xs ys = sumdev ys xs.
Proof.
  unfold sumdev. generalize (mean xs) (mean ys). intros mx my.
  revert ys; induction xs as [|x xs IH]; intros [|y ys]; simpl; auto.
  rewrite IH. ring.
Qed.

Lemma sumdev_square_le xs ys :
  length xs = length ys ->
  sumdev xs ys * sumdev xs ys <= ssqdm xs * ssqdm ys.
Proof.
  intros Hlen. unfold sumdev, ssqdm.
  rewrite zip_with_combine.
  rewrite <- (map_fst_combine_eq xs ys Hlen) at 3.
  rewrite <- (map_snd_combine_eq xs ys Hlen) at 4.
  rewrite !map_map.
  apply (cauchy_schwarz (fun p => fst p - mean xs) (fun p => snd p - mean ys)).
Qed.

Lemma clip_inside v : -1 <= v <= 1 -> clip v = v.
Proof.
  intros [Hlo Hhi]. unfold clip.
  destruct (Rlt_dec 1 v); [lra|]. destruct (Rlt_dec v (-1)); [lra | reflexivity].
Qed.


Lemma pearson_sym xs ys : pearson xs ys = pearson ys xs.
Proof.
  unfold pearson.
  destruct (Req_dec_T (ssqdm xs) 0), (Req_dec_T (ssqdm ys) 0); try reflexivity.
  rewrite sumdev_sym. f_equal. f_equal. ring.
Qed.


Lemma sumdev_over_roots_range xs ys :
  length xs = length ys -> ssqdm xs <> 0 -> ssqdm ys <> 0 ->
  -1 <= sumdev xs ys / (sqrt (ssqdm xs) * sqrt (ssqdm ys)) <= 1.
Proof.
  intros Hlen Hx Hy.
  pose proof (ssqdm_nonneg xs) as Hx0. pose proof (ssqdm_nonneg ys) as Hy0.
  pose proof (sumdev_square_le xs ys Hlen) as Hcs.
  set (D := sqrt (ssqdm xs) * sqrt (ssqdm ys)).
  assert (HD : 0 < D).
  { apply Rmult_lt_0_compat; apply sqrt_lt_R0; lra. }
  assert (HDD : D * D = ssqdm xs * ssqdm ys).
  { unfold D.
    replace (sqrt (ssqdm xs) * sqrt (ssqdm ys) *
             (sqrt (ssqdm xs) * sqrt (ssqdm ys)))
      with ((sqrt (ssqdm xs) * sqrt (ssqdm xs)) *
            (sqrt (ssqdm ys) * sqrt (ssqdm ys))) by ring.
    now rewrite !sqrt_sqrt. }
  assert (Hb : - D <= sumdev xs ys <= D) by nra.
  split.
  - apply Rmult_le_reg_r with D; [exact HD|].
    replace (sumdev xs ys / D * D) with (sumdev xs ys) by (field; lra). lra.
  - apply Rmult_le_reg_r with D; [exact HD|].
    replace (sumdev xs ys / D * D) with (sumdev xs ys) by (field; lra). lra.
Qed.

Lemma pearson_range xs ys v :
  length xs = length ys -> pearson xs ys = Some v -> -1 <= v <= 1.
Proof.
  intros Hlen. unfold pearson.
  destruct (Req_dec_T (ssqdm xs) 0) as [|Hx]; [discriminate|].
  destruct (Req_dec_T (ssqdm ys) 0) as [|Hy]; [discriminate|].
  intros H; inversion H; subst. now apply sumdev_over_roots_range.
Qed.

Lemma paired_values xs ys :
  paired (map Some xs) (map Some ys) = combine xs ys.
Proof.
  revert ys; induction xs as [|x xs IH]; intros [|y ys]; simpl; auto.
  now rewrite IH.
Qed.

(** On two columns without missing values and of equal length, the kernel of
    [corr] is the Pearson coefficient: the clipping leaves it as it is. *)
Lemma nancorr_pearson xs ys :
  length xs = length ys ->
  nancorr (map Some xs) (map Some ys) = pearson xs ys.
Proof.
  intros Hlen. unfold nancorr.
  rewrite paired_values, map_fst_combine_eq, map_snd_combine_eq by exact Hlen.
  unfold pearson.
  pose proof (ssqdm_nonneg xs) as Hx0. pose proof (ssqdm_nonneg ys) as Hy0.
  destruct (Nat.ltb_spec (length (combine xs ys)) 1) as [Hshort|_].
  - assert (xs = []) as ->.
    { rewrite length_combine in Hshort. destruct xs; [reflexivity|].
      destruct ys; simpl in *; [discriminate | lia]. }
    rewrite ssqdm_nil. destruct (Req_dec_T 0 0); [reflexivity | congruence].
  - destruct (Req_dec_T (ssqdm xs) 0) as [Hx|Hx].
    + rewrite Hx, Rmult_0_l, sqrt_0.
      destruct (Req_dec_T 0 0); [reflexivity | congruence].
    + destruct (Req_dec_T (ssqdm ys) 0) as [Hy|Hy].
      * rewrite Hy, Rmult_0_r, sqrt_0.
        destruct (Req_dec_T 0 0); [reflexivity | congruence].
      * rewrite sqrt_mult by assumption.
        assert (HD : 0 < sqrt (ssqdm xs) * sqrt (ssqdm ys)).
        { apply Rmult_lt_0_compat; apply sqrt_lt_R0; lra. }
        destruct (Req_dec_T (sqrt (ssqdm xs) * sqrt (ssqdm ys)) 0); [lra|].
        f_equal. apply clip_inside. now apply sumdev_over_roots_range.
Qed.

Local Close Scope R_scope.

(** ** The loop of [calculate_correlation] *)

Lemma add_label_In seen a x :
  In x (add_label seen a) <-> In x seen \/ x = a.
Proof.
  unfold add_label.
  destruct (existsb (fun b => String.eqb b a) seen) eqn:E.
  - split; [auto|]. intros [H| ->]; [exact H|].
    apply existsb_exists in E as (b & Hb & Heq).
    apply String.eqb_eq in Heq. now subst.
  - rewrite in_app_iff. simpl. intuition.
Qed.

Lemma add_label_NoDup seen a : NoDup seen -> NoDup (add_label seen a).
Proof.
  intros Hnd. unfold add_label.
  destruct (existsb (fun b => String.eqb b a) seen) eqn:E; [exact Hnd|].
  apply NoDup_app; [exact Hnd | repeat constructor; auto |].
  intros x Hx [Heq|[]]. subst x.
  assert (existsb (fun b => String.eqb b a) seen = true).
  { apply existsb_exists. exists a. split; [exact Hx | apply String.eqb_refl]. }
  congruence.
Qed.

Lemma fold_add_label_In l seen x :
  In x (fold_left add_label l seen) <-> In x seen \/ In x l.
Proof.
  revert seen; induction l as [|a l IH]; intros seen; simpl; [tauto|].
  rewrite IH, add_label_In. intuition.
Qed.

Lemma fold_add_label_NoDup l seen :
  NoDup seen -> NoDup (fold_left add_label l seen).
Proof.
  revert seen; induction l as [|a l IH]; intros seen H; simpl; [exact H|].
  apply IH. now apply add_label_NoDup.
Qed.

Lemma fold_add_label_fresh l seen :
  NoDup (seen ++ l) -> fold_left add_label l seen = seen ++ l.
Proof.
  revert seen; induction l as [|a l IH]; intros seen H; simpl.
  - now rewrite app_nil_r.
  - assert (E : add_label seen a = seen ++ [a]).
    { unfold add_label.
      destruct (existsb (fun b => String.eqb b a) seen) eqn:E; [|reflexivity].
      exfalso. apply existsb_exists in E as (b & Hb & Heq).
      apply String.eqb_eq in Heq. subst b.
      apply NoDup_remove_2 in H. apply H. apply in_or_app. now left. }
    rewrite E, IH; rewrite <- app_assoc; [reflexivity | exact H].
Qed.

Lemma fold_add_label_nil l seen :
  fold_left add_label l seen = [] -> seen = [] /\ l = [].
Proof.
  intros H.
  assert (Hin : forall x, ~ In x (fold_left add_label l seen))
    by (intros x; rewrite H; auto).
  split.
  - destruct seen as [|b seen]; [reflexivity|].
    exfalso. apply (Hin b). apply fold_add_label_In. left. now left.
  - destruct l as [|a l]; [reflexivity|].
    exfalso. apply (Hin a). apply fold_add_label_In. right. now left.
Qed.

Section CorrelationLoop.

Variable fill_pad : bool.
Variable t : PriceTable.

Lemma included_In tickers a :
  In a (included t tickers) <-> In a tickers /\ has_close t a = true.
Proof.
  unfold included. rewrite fold_add_label_In, filter_In. simpl. tauto.
Qed.

Lemma included_NoDup tickers : NoDup (included t tickers).
Proof. apply fold_add_label_NoDup. constructor. Qed.

Lemma included_of_NoDup tickers :
  NoDup tickers -> included t tickers = filter (has_close t) tickers.
Proof.
  intros H. unfold included. rewrite fold_add_label_fresh; [reflexivity|].
  simpl. now apply NoDup_filter.
Qed.

Lemma close_of_raise ticker e : close_of t ticker = Raise e -> e = KeyError.
Proof.
  unfold close_of, select, getitem.
  destruct (filter (of_ticker ticker) (tcolumns t)); [congruence|].
  destruct (find _ _); congruence.
Qed.

Lemma has_close_contains ticker :
  has_close t ticker = true -> contains t ticker = true.
Proof.
  unfold has_close, close_of.
  destruct (select t ticker) as [sub|] eqn:E; [|discriminate].
  intros _. now apply select_Ok_contains with sub.
Qed.

Lemma returns_of_close ticker close :
  close_of t ticker = Ok close ->
  returns_of fill_pad t ticker = pct_change fill_pad close.
Proof. intros H. unfold returns_of. now rewrite H. Qed.

Lemma correlation_step_included f ticker :
  has_close t ticker = true ->
  correlation_step fill_pad t f ticker =
  Ok (assign f ticker (dates t) (returns_of fill_pad t ticker)).
Proof.
  intros H. unfold correlation_step.
  rewrite (has_close_contains _ H).
  unfold has_close in H. unfold returns_of.
  destruct (close_of t ticker); [reflexivity | discriminate].
Qed.

Lemma correlation_step_skipped f ticker :
  has_close t ticker = false ->
  correlation_step fill_pad t f ticker = Ok f.
Proof.
  intros H. unfold correlation_step.
  destruct (contains t ticker); [|reflexivity].
  unfold has_close in H.
  destruct (close_of t ticker) as [|e] eqn:E; [discriminate|].
  now rewrite (close_of_raise _ _ E).
Qed.

Lemma replace_col_labelled seen a :
  replace_col a (returns_of fill_pad t a) (labelled_returns fill_pad t seen) =
  labelled_returns fill_pad t seen.
Proof.
  induction seen as [|b seen IH]; simpl; [reflexivity|].
  unfold named at 1. simpl.
  destruct (String.eqb_spec b a) as [->|_]; [reflexivity|].
  now rewrite IH.
Qed.

Lemma setitem_labelled idx seen a :
  setitem (mkFrame idx (labelled_returns fill_pad t seen)) a
          (returns_of fill_pad t a) =
  mkFrame idx (labelled_returns fill_pad t (add_label seen a)).
Proof.
  unfold setitem, add_label. simpl.
  assert (E : existsb (named a) (labelled_returns fill_pad t seen) =
              existsb (fun b => String.eqb b a) seen).
  { unfold labelled_returns. induction seen as [|b seen IH]; simpl;
      [reflexivity|]. now rewrite IH. }
  rewrite E.
  destruct (existsb (fun b => String.eqb b a) seen).
  - now rewrite replace_col_labelled.
  - unfold labelled_returns. now rewrite map_app.
Qed.

(** The loop never raises: it leaves a frame of the return columns of the
    included tickers, on the table's dates as soon as it has a column. *)
Lemma correlation_loop_labelled tickers idx seen :
  idx = dates t \/ (idx = [] /\ seen = []) ->
  exists idx',
    correlation_loop fill_pad t
      (mkFrame idx (labelled_returns fill_pad t seen)) tickers =
    Ok (mkFrame idx'
          (labelled_returns fill_pad t
             (fold_left add_label (filter (has_close t) tickers) seen))) /\
    (idx' = dates t \/
     (idx' = [] /\
      fold_left add_label (filter (has_close t) tickers) seen = [])).
Proof.
  revert idx seen; induction tickers as [|a tickers IH]; intros idx seen Hidx.
  - exists idx. simpl. split; [reflexivity | exact Hidx].
  - cbn [correlation_loop filter].
    destruct (has_close t a) eqn:Ha.
    + rewrite (correlation_step_included _ _ Ha).
      unfold assign. cbn [index columns].
      rewrite setitem_labelled.
      assert (Hown : match idx with [] => dates t | _ :: _ => idx end
                     = dates t).
      { destruct Hidx as [->|[-> _]]; [now destruct (dates t) | reflexivity]. }
      rewrite Hown. cbn [fold_left].
      apply IH. now left.
    + rewrite (correlation_step_skipped _ _ Ha). now apply IH.
Qed.

End CorrelationLoop.

(** ** Dropping rows and building the matrix *)

Lemma keep_rows_from {A} (keep : nat -> bool) (d : A) (l : list A) (s : nat) :
  map snd (filter (fun p => keep (fst p)) (combine (seq s (length l)) l)) =
  map (fun i => nth (i - s) l d) (filter keep (seq s (length l))).
Proof.
  revert s; induction l as [|x l IH]; intros s; [reflexivity|].
  cbn [length seq combine filter fst].
  assert (Htail : map (fun i => nth (i - s) (x :: l) d)
                      (filter keep (seq (S s) (length l))) =
                  map (fun i => nth (i - S s) l d)
                      (filter keep (seq (S s) (length l)))).
  { apply map_ext_in. intros i Hi.
    apply filter_In in Hi as [Hi _]. apply in_seq in Hi.
    replace (i - s) with (S (i - S s)) by lia. reflexivity. }
  destruct (keep s); cbn [map snd].
  - rewrite IH, <- Htail, Nat.sub_diag. reflexivity.
  - now rewrite IH, <- Htail.
Qed.

Lemma keep_rows_eq {A} (keep : nat -> bool) (d : A) (l : list A) :
  keep_rows keep l = map (fun i => nth i l d) (filter keep (seq 0 (length l))).
Proof.
  unfold keep_rows. rewrite (keep_rows_from keep d l 0).
  apply map_ext. intros i. now rewrite Nat.sub_0_r.
Qed.

Lemma forallb_same_elements {A} (p : A -> bool) (l l' : list A) :
  (forall x, In x l <-> In x l') -> forallb p l = forallb p l'.
Proof.
  intros Hsame.
  destruct (forallb p l) eqn:E, (forallb p l') eqn:E'; try reflexivity.
  - rewrite forallb_forall in E.
    assert (forallb p l' = true)
      by (apply forallb_forall; intros x Hx; apply E, Hsame, Hx).
    congruence.
  - rewrite forallb_forall in E'.
    assert (forallb p l = true)
      by (apply forallb_forall; intros x Hx; apply E', Hsame, Hx).
    congruence.
Qed.

Lemma forallb_over_map {A B} (p : B -> bool) (f : A -> B) (l : list A) :
  forallb p (map f l) = forallb (fun x => p (f x)) l.
Proof. induction l as [|a l IH]; simpl; [reflexivity | now rewrite IH]. Qed.

Lemma all_notna_values (l : Series) :
  Forall (fun c => notna c = true) l -> l = map Some (valid l).
Proof.
  induction 1 as [|c l Hc _ IH]; [reflexivity|].
  destruct c as [x|]; [|discriminate]. simpl. now rewrite <- IH.
Qed.

Lemma find_some_In {A} (p : A -> bool) l a : find p l = Some a -> In a l.
Proof.
  induction l as [|x l IH]; simpl; [discriminate|].
  destruct (p x); [intros H; inversion H; now left | auto].
Qed.

Section CorrelationMatrix.

Variable fill_pad : bool.
Variable t : PriceTable.
Variable tickers : list string.

Lemma close_of_column ticker close :
  close_of t ticker = Ok close ->
  exists c, In c (tcolumns t) /\ snd c = close.
Proof.
  unfold close_of, select.
  destruct (filter (of_ticker ticker) (tcolumns t)) as [|c0 cs] eqn:E;
    [discriminate|].
  unfold getitem. cbn [columns].
  destruct (find (named "Close") _) as [c|] eqn:F; [|discriminate].
  intros H. inversion H; subst.
  apply find_some_In in F. apply in_map_iff in F as (c' & Hc' & Hin).
  exists c'. split.
  - rewrite <- E in Hin. now apply filter_In in Hin.
  - now rewrite <- Hc'.
Qed.

Lemma returns_of_length ticker :
  rectangular t -> has_close t ticker = true ->
  length (returns_of fill_pad t ticker) = length (dates t).
Proof.
  intros Hrect H. unfold has_close in H. unfold returns_of.
  destruct (close_of t ticker) as [close|] eqn:E; [|discriminate].
  rewrite pct_change_length.
  destruct (close_of_column _ _ E) as (c & Hin & <-).
  unfold rectangular in Hrect. rewrite Forall_forall in Hrect.
  now apply Hrect.
Qed.

Lemma row_complete_included i :
  row_complete (labelled_returns fill_pad t (included t tickers)) i =
  all_defined_at fill_pad t tickers i.
Proof.
  unfold row_complete, all_defined_at, labelled_returns.
  rewrite forallb_over_map. cbn [snd].
  apply forallb_same_elements. intros a.
  rewrite included_In, filter_In. tauto.
Qed.

Lemma all_defined_at_iff i :
  all_defined_at fill_pad t tickers i = true <->
  forall a, In a tickers -> has_close t a = true ->
            exists v, nth_error (returns_of fill_pad t a) i = Some (Some v).
Proof.
  unfold all_defined_at. rewrite forallb_forall. split.
  - intros H a Hin Hc.
    specialize (H a (proj2 (filter_In _ _ _) (conj Hin Hc))).
    destruct (nth_error (returns_of fill_pad t a) i) as [c|] eqn:E.
    + rewrite (nth_error_nth _ _ _ E) in H.
      destruct c as [v|]; [now exists v | discriminate].
    + rewrite (nth_error_nth_None _ _ _ E) in H. discriminate.
  - intros H a Hin. apply filter_In in Hin as [Hin Hc].
    destruct (H a Hin Hc) as (v & Hv).
    now rewrite (nth_error_nth _ _ _ Hv).
Qed.

Lemma retained_rows_iff i :
  In i (retained_rows fill_pad t tickers) <->
  i < length (dates t) /\
  forall a, In a tickers -> has_close t a = true ->
            exists v, nth_error (returns_of fill_pad t a) i = Some (Some v).
Proof.
  unfold retained_rows. rewrite filter_In, in_seq, all_defined_at_iff.
  intuition lia.
Qed.

Lemma dropna_index :
  keep_rows
    (row_complete (labelled_returns fill_pad t (included t tickers)))
    (dates t) = retained_dates fill_pad t tickers.
Proof.
  rewrite (keep_rows_eq _ 0). unfold retained_dates, retained_rows.
  f_equal. apply filter_ext. intros i. apply row_complete_included.
Qed.

Lemma dropna_column a :
  rectangular t -> In a (included t tickers) ->
  keep_rows
    (row_complete (labelled_returns fill_pad t (included t tickers)))
    (returns_of fill_pad t a) =
  map Some (retained_returns fill_pad t tickers a).
Proof.
  intros Hrect Ha. apply included_In in Ha as [Hin Hc].
  rewrite (keep_rows_eq _ (None : cell)), (returns_of_length _ Hrect Hc).
  rewrite (filter_ext _ _ row_complete_included).
  unfold retained_returns. fold (retained_rows fill_pad t tickers).
  apply all_notna_values. apply Forall_forall. intros c Hcell.
  apply in_map_iff in Hcell as (i & <- & Hi).
  apply retained_rows_iff in Hi as [_ Hi].
  destruct (Hi a Hin Hc) as (v & Hv).
  now rewrite (nth_error_nth _ _ _ Hv).
Qed.

Lemma retained_returns_length a :
  rectangular t -> In a (included t tickers) ->
  length (retained_returns fill_pad t tickers a) =
  length (retained_rows fill_pad t tickers).
Proof.
  intros Hrect Ha.
  rewrite <- (length_map Some), <- (dropna_column a Hrect Ha).
  rewrite (keep_rows_eq _ (None : cell)), length_map.
  apply included_In in Ha as [_ Hc].
  rewrite (returns_of_length _ Hrect Hc).
  unfold retained_rows. f_equal. apply filter_ext. intros i.
  apply row_complete_included.
Qed.

(** [calculate_correlation] returns the matrix of the frame that the loop
    leaves, with the incomplete rows dropped. *)
Lemma calculate_correlation_run :
  exists idx,
    calculate_correlation fill_pad t tickers =
    Ok (corr (dropna
                (mkFrame idx
                   (labelled_returns fill_pad t (included t tickers))))) /\
    (idx = dates t \/ (idx = [] /\ included t tickers = [])).
Proof.
  unfold calculate_correlation.
  destruct (correlation_loop_labelled fill_pad t tickers [] [])
    as (idx & Hrun & Hidx); [now right|].
  change (labelled_returns fill_pad t []) with (@nil (string * Series)) in Hrun.
  rewrite Hrun. exists idx. split; [reflexivity | exact Hidx].
Qed.

Lemma corr_labels f : labels (corr f) = map fst (columns f).
Proof. reflexivity. Qed.

Lemma corr_square f : square (corr f) (length (columns f)).
Proof.
  unfold square, corr. cbn [values].
  rewrite !length_map, length_seq. split; [reflexivity|].
  apply Forall_forall. intros row Hrow.
  apply in_map_iff in Hrow as (i & <- & _).
  now rewrite length_map, length_seq.
Qed.

Lemma corr_entry_at f i j :
  i < length (columns f) -> j < length (columns f) ->
  entry (corr f) i j = Some (corr_entry (map snd (columns f)) i j).
Proof.
  intros Hi Hj. unfold entry, corr. cbn [values].
  rewrite length_map.
  rewrite nth_error_map, nth_error_seq.
  destruct (Nat.ltb_spec i (length (columns f))); [|lia]. cbn [option_map].
  rewrite nth_error_map, nth_error_seq.
  destruct (Nat.ltb_spec j (length (columns f))); [|lia]. reflexivity.
Qed.


Lemma dropna_labels f : map fst (columns (dropna f)) = map fst (columns f).
Proof.
  unfold dropna. cbn [columns]. rewrite map_map. reflexivity.
Qed.

Lemma labelled_returns_labels df l :
  map fst (labelled_returns fill_pad df l) = l.
Proof.
  unfold labelled_returns. rewrite map_map. cbn [fst]. apply map_id.
Qed.

End CorrelationMatrix.

(** ** The correlation matrix *)




Section CorrelationClaims.

Variable fill_pad : bool.
Variable t : PriceTable.
Variable tickers : list string.

Lemma dropna_columns_values idx :
  rectangular t ->
  map snd (columns (dropna
     (mkFrame idx (labelled_returns fill_pad t (included t tickers))))) =
  map (fun a => map Some (retained_returns fill_pad t tickers a))
      (included t tickers).
Proof.
  intros Hrect. unfold dropna. cbn [columns].
  unfold labelled_returns at 2. rewrite !map_map. cbn [snd].
  apply map_ext_in. intros a Ha. now apply dropna_column.
Qed.

Lemma dropna_columns_length idx :
  length (columns (dropna
     (mkFrame idx (labelled_returns fill_pad t (included t tickers))))) =
  length (included t tickers).
Proof.
  unfold dropna, labelled_returns. cbn [columns]. now rewrite !length_map.
Qed.

(** On a rectangular table, the entry of two included tickers is the
    Pearson coefficient of their returns on the retained rows. *)
Lemma calculate_correlation_entries :
  rectangular t ->
  exists m,
    calculate_correlation fill_pad t tickers = Ok m /\
    labels m = included t tickers /\
    square m (length (included t tickers)) /\
    forall i j a b,
      nth_error (included t tickers) i = Some a ->
      nth_error (included t tickers) j = Some b ->
      entry m i j =
      Some (pearson (retained_returns fill_pad t tickers a)
                    (retained_returns fill_pad t tickers b)).
Proof.
  intros Hrect.
  destruct (calculate_correlation_run fill_pad t tickers) as (idx & Hrun & _).
  eexists. split; [exact Hrun|].
  split.
  { rewrite corr_labels, dropna_labels. cbn [columns].
    apply labelled_returns_labels. }
  split.
  { rewrite <- (dropna_columns_length idx). apply corr_square. }
  intros i j a b Ha Hb.
  assert (Hi : i < length (included t tickers))
    by (apply nth_error_Some; congruence).
  assert (Hj : j < length (included t tickers))
    by (apply nth_error_Some; congruence).
  rewrite corr_entry_at by (now rewrite dropna_columns_length).
  rewrite (dropna_columns_values idx Hrect).
  f_equal. unfold corr_entry.
  set (cols := map (fun a => map Some
                        (retained_returns fill_pad t tickers a))
                   (included t tickers)).
  assert (Hcol : forall k c, nth_error (included t tickers) k = Some c ->
            @nth Series k cols [] =
            map Some (retained_returns fill_pad t tickers c)).
  { intros k c Hk. apply (@nth_error_nth Series). unfold cols.
    now apply (map_nth_error (fun a => map Some
                 (retained_returns fill_pad t tickers a))). }
  assert (Hlen : length (retained_returns fill_pad t tickers a) =
                 length (retained_returns fill_pad t tickers b)).
  { rewrite !retained_returns_length;
      eauto using nth_error_In. }
  destruct (Nat.le_ge_cases i j) as [Hle|Hge].
  - rewrite Nat.max_r, Nat.min_l by exact Hle.
    rewrite (Hcol _ _ Ha), (Hcol _ _ Hb).
    rewrite nancorr_pearson by (symmetry; exact Hlen). apply pearson_sym.
  - rewrite Nat.max_l, Nat.min_r by exact Hge.
    rewrite (Hcol _ _ Ha), (Hcol _ _ Hb).
    now apply nancorr_pearson.
Qed.




(** C2.  On a rectangular table with no retained row,
    [calculate_correlation] raises nothing and signals nothing: it returns
    the matrix labelled by the included tickers, every entry of which is
    missing. *)
Theorem C2_no_overlap_all_missing :
  rectangular t ->
  retained_rows fill_pad t tickers = [] ->
  exists m,
    calculate_correlation fill_pad t tickers = Ok m /\
    labels m = included t tickers /\
    square m (length (included t tickers)) /\
    forall i j,
      i < length (included t tickers) ->
      j < length (included t tickers) ->
      entry m i j = Some None.
Proof.
  intros Hrect Hnone.
  destruct (calculate_correlation_entries Hrect)
    as (m & Hrun & Hlab & Hsq & Hentries).
  exists m. repeat split; try assumption; try apply Hsq.
  intros i j Hi Hj.
  destruct (nth_error (included t tickers) i) as [a|] eqn:Ea;
    [|apply nth_error_None in Ea; lia].
  destruct (nth_error (included t tickers) j) as [b|] eqn:Eb;
    [|apply nth_error_None in Eb; lia].
  rewrite (Hentries i j a b Ea Eb).
  unfold retained_returns. rewrite Hnone. cbn [map valid].
  unfold pearson. rewrite ssqdm_nil.
  destruct (Req_dec_T 0 0); [reflexivity | congruence].
Qed.

End CorrelationClaims.

(** ** The claims on sample tables *)

Lemma C1_one_year_return_witness :
  fst (main false 0 "A" [OTable flat_table]) = Raise IndexError.
Proof.
  apply (C1_one_year_return false [OTable flat_table] 0 flat_table "A"
           [Some 1%R; Some 1%R; Some 1%R] eq_refl eq_refl).
  simpl. lia.
Defined.

(** With exactly 252 closes, fewer than 253, the KPI row does not fail: it
    returns the 1-year return computed from the first close. *)
Lemma C1_counterexample :
  length year_closes < 253 /\
  exists kpi,
    fst (main false 0 "A" [OTable year_table]) = Ok (Some kpi) /\
    ytd_return kpi = Some ((1 / 1 - 1) * 100)%R.
Proof.
  split; [unfold year_closes; rewrite repeat_length; lia|].
  rewrite (main_present false [OTable year_table] 0 year_table "A"
             (mkFrame (seq 0 252) [("Close", year_closes)]) year_closes
             eq_refl eq_refl eq_refl).
  assert (Hlen : length year_closes = 252)
    by (unfold year_closes; apply repeat_length).
  rewrite Hlen. change (252 <=? 252) with true. cbv iota.
  eexists. split; [reflexivity|]. reflexivity.
Qed.

Lemma C3_not_found_iff_absent_witness :
  calculate_metrics false 0 "ZZZZ" [OTable flat_table] =
  (Ok None, [OTable flat_table]).
Proof.
  apply (C3_not_found_iff_absent false [OTable flat_table] 0 flat_table "ZZZZ"
           eq_refl eq_refl).
  reflexivity.
Defined.

Lemma C8_daily_return_witness :
  exists f daily,
    calculate_metrics false 0 "A" [OTable pair_table] =
      (Ok (Some 1), [OTable pair_table; OFrame f]) /\
    getitem f "Daily Return" = Ok daily /\
    nth_error daily 0 = Some None /\
    nth_error daily 1 = Some (Some (2 / 1 - 1)%R) /\
    nth_error daily 2 = Some (Some (4 / 2 - 1)%R).
Proof.
  destruct (C8_daily_return false [OTable pair_table] 0 pair_table "A"
              [Some 1%R; Some 2%R; Some 4%R] eq_refl eq_refl)
    as (f & daily & Hrun & _ & Hdaily & _ & Hhead & Hsucc).
  exists f, daily.
  split; [exact Hrun|]. split; [exact Hdaily|].
  split; [apply Hhead; discriminate|].
  split.
  - apply (Hsucc 0%nat); [reflexivity | lra | reflexivity].
  - apply (Hsucc 1%nat); [reflexivity | lra | reflexivity].
Defined.

Lemma C4_volatility_witness :
  exists f vol,
    calculate_metrics false 0 "A" [OTable pair_table] =
      (Ok (Some 1), [OTable pair_table; OFrame f]) /\
    getitem f "Volatility" = Ok vol /\
    nth_error vol 2 = Some None.
Proof.
  destruct (C4_volatility false [OTable pair_table] 0 pair_table "A"
              [Some 1%R; Some 2%R; Some 4%R] eq_refl eq_refl)
    as (f & daily & vol & Hrun & Hdaily & Hvol & Hrows & _ & _ & Hmissing).
  exists f, vol.
  split; [exact Hrun|]. split; [exact Hvol|].
  apply Hmissing; [rewrite Hrows; simpl; lia|].
  intros (xs & _ & Hw & _). lia.
Defined.

Lemma C9_moving_averages_witness :
  exists f sma50 sma200,
    calculate_metrics false 0 "A" [OTable pair_table] =
      (Ok (Some 1), [OTable pair_table; OFrame f]) /\
    getitem f "SMA_50" = Ok sma50 /\
    getitem f "SMA_200" = Ok sma200 /\
    nth_error sma50 2 = Some None /\
    nth_error sma200 2 = Some None.
Proof.
  destruct (C9_moving_averages false [OTable pair_table] 0 pair_table "A"
              [Some 1%R; Some 2%R; Some 4%R] eq_refl eq_refl)
    as (f & sma50 & sma200 & Hrun & _ & H50 & H200 & _ & _
        & _ & Hmiss50 & _ & Hmiss200).
  exists f, sma50, sma200.
  split; [exact Hrun|]. split; [exact H50|]. split; [exact H200|].
  split.
  - apply Hmiss50; [simpl; lia|]. intros (xs & _ & Hw & _). lia.
  - apply Hmiss200; [simpl; lia|]. intros (xs & _ & Hw & _). lia.
Defined.

Lemma flat_table_price_frame :
  price_frame (mkFrame [1; 2; 3]
     [("Open", [Some 1%R; Some 1%R; Some 1%R]);
      ("Close", [Some 1%R; Some 1%R; Some 1%R])]).
Proof.
  unfold price_frame, price_fields. cbn [columns].
  apply Forall_forall. intros c [<-|[<-|[]]]; simpl; tauto.
Defined.

Lemma C10_metrics_frame_witness :
  exists h' f daily vol sma50 sma200,
    calculate_metrics false 0 "A" [OTable flat_table] = (Ok (Some 1), h') /\
    nth_error h' 0 = Some (OTable flat_table) /\
    nth_error h' 1 = Some (OFrame f) /\
    index f = [1; 2; 3] /\
    columns f =
      [("Open", [Some 1%R; Some 1%R; Some 1%R]);
       ("Close", [Some 1%R; Some 1%R; Some 1%R]);
       ("Daily Return", daily); ("Volatility", vol);
       ("SMA_50", sma50); ("SMA_200", sma200)].
Proof.
  destruct (C10_metrics_frame false [OTable flat_table] 0 flat_table "A"
              _ [Some 1%R; Some 1%R; Some 1%R]
              eq_refl eq_refl eq_refl flat_table_price_frame)
    as (h' & f & daily & vol & sma50 & sma200
        & Hrun & _ & Hdf & Hf & Hidx & _ & Hcols & _).
  exists h', f, daily, vol, sma50, sma200.
  repeat split; assumption.
Defined.



Lemma disjoint_table_rectangular : rectangular disjoint_table.
Proof. unfold rectangular, disjoint_table. repeat constructor. Defined.


Lemma C2_no_overlap_all_missing_witness :
  exists m,
    calculate_correlation false disjoint_table ["A"; "B"] = Ok m /\
    labels m = ["A"; "B"] /\
    entry m 0 1 = Some None.
Proof.
  destruct (C2_no_overlap_all_missing false disjoint_table ["A"; "B"]
              disjoint_table_rectangular eq_refl)
    as (m & Hrun & Hlab & _ & Hentries).
  exists m.
  split; [exact Hrun|]. split; [exact Hlab|].
  apply Hentries; simpl; lia.
Defined.

(** Two tickers without a common day of returns: no retained row, and the
    result is an ordinary matrix of missing values, not a signal. *)
Lemma C2_counterexample :
  (retained_rows false disjoint_table ["A"; "B"] = [] /\
   calculate_correlation false disjoint_table ["A"; "B"] =
   Ok (mkCorr ["A"; "B"] [[None; None]; [None; None]])) /\
  (retained_rows true disjoint_table ["A"; "B"] = [] /\
   calculate_correlation true disjoint_table ["A"; "B"] =
   Ok (mkCorr ["A"; "B"] [[None; None]; [None; None]])).
Proof. repeat split; reflexivity. Qed.






(** * Further properties of the metrics engine *)

Lemma sum_repeat c n : sum (repeat c n) = (INR n * c)%R.
Proof.
  induction n as [|n IH]; [simpl; ring|].
  cbn [repeat]. unfold sum in *. cbn [fold_right]. rewrite IH, S_INR. ring.
Qed.

Lemma mean_repeat c n : 0 < n -> mean (repeat c n) = c.
Proof.
  intros Hn. unfold mean. rewrite sum_repeat, repeat_length.
  field. apply not_0_INR. lia.
Qed.

Lemma sample_std_repeat c n : 0 < n -> sample_std (repeat c n) = 0%R.
Proof.
  intros Hn. unfold sample_std.
  fold (mean (repeat c n)). rewrite (mean_repeat c n Hn).
  rewrite map_repeat, sum_repeat.
  replace (INR n * Rsqr (c - c) / (INR (length (repeat c n)) - 1))%R with 0%R.
  - apply sqrt_0.
  - unfold Rsqr, Rdiv. ring.
Qed.

Lemma sum_bounds lo hi xs :
  (forall x, In x xs -> (lo <= x <= hi)%R) ->
  (INR (length xs) * lo <= sum xs <= INR (length xs) * hi)%R.
Proof.
  induction xs as [|x xs IH]; intros H.
  - simpl. lra.
  - cbn [length]. rewrite S_INR. unfold sum in *. cbn [fold_right].
    assert (Hx : (lo <= x <= hi)%R) by (apply H; now left).
    assert (Hxs : (INR (length xs) * lo <= fold_right Rplus 0%R xs
                   <= INR (length xs) * hi)%R)
      by (apply IH; intros y Hy; apply H; now right).
    lra.
Qed.

Lemma mean_bounds lo hi xs :
  xs <> [] ->
  (forall x, In x xs -> (lo <= x <= hi)%R) ->
  (lo <= mean xs <= hi)%R.
Proof.
  intros Hne H. pose proof (sum_bounds lo hi xs H) as [Hlo Hhi].
  assert (Hn : (0 < INR (length xs))%R).
  { apply lt_0_INR. destruct xs; [congruence | simpl; lia]. }
  unfold mean. split.
  - apply Rmult_le_reg_r with (INR (length xs)); [exact Hn|].
    replace (sum xs / INR (length xs) * INR (length xs))%R with (sum xs)
      by (field; lra). lra.
  - apply Rmult_le_reg_r with (INR (length xs)); [exact Hn|].
    replace (sum xs / INR (length xs) * INR (length xs))%R with (sum xs)
      by (field; lra). lra.
Qed.

Lemma mul_scalar_value s k i v :
  nth_error (mul_scalar s k) i = Some (Some v) ->
  exists x, nth_error s i = Some (Some x) /\ v = (x * k)%R.
Proof.
  unfold mul_scalar. intros H.
  destruct (nth_error s i) as [c|] eqn:E.
  - rewrite (map_nth_error _ _ _ E) in H. inversion H as [Hc].
    destruct c as [x|]; [|discriminate]. inversion Hc. now exists x.
  - apply nth_error_None in E.
    assert (Hnone : nth_error
              (map (option_map (fun x => (x * k)%R)) s) i = None)
      by (apply nth_error_None; now rewrite length_map).
    discriminate (eq_trans (eq_sym Hnone) H).
Qed.

Lemma rolling_value_agg w agg s i v :
  nth_error (rolling w agg s) i = Some (Some v) ->
  exists xs, window_values s w i xs /\ agg xs = Some v.
Proof.
  intros Hv.
  destruct (rolling_value_window _ _ _ _ _ Hv) as (xs & Hwin).
  exists xs. split; [exact Hwin|].
  assert (Hw : 0 < w \/ w = 0) by lia.
  destruct Hw as [Hw| ->].
  - rewrite (rolling_window w agg s i xs Hw Hwin) in Hv. now inversion Hv.
  - assert (Hi : i < length s).
    { rewrite <- (rolling_length 0 agg). apply nth_error_Some. congruence. }
    rewrite rolling_nth_error in Hv by exact Hi. cbv zeta in Hv.
    rewrite (window_at_values _ _ _ _ Hwin), valid_map_Some in Hv.
    destruct (length xs <? 0) eqn:E; [discriminate|]. now inversion Hv.
Qed.

Lemma sum_map_zero {T} (g : T -> R) (l : list T) :
  (forall p, In p l -> g p = 0%R) -> sum (map g l) = 0%R.
Proof.
  induction l as [|a l IH]; intros H; [reflexivity|].
  cbn [map]. unfold sum in *. cbn [fold_right].
  rewrite (H a) by now left.
  rewrite IH by (intros p Hp; apply H; now right). ring.
Qed.

Lemma sum_squares_zero {T} (f : T -> R) (l : list T) :
  sum (map (fun p => (f p * f p)%R) l) = 0%R ->
  forall p, In p l -> f p = 0%R.
Proof.
  induction l as [|a l IH]; intros Hsum p Hp; [destruct Hp|].
  cbn [map] in Hsum. unfold sum in *. cbn [fold_right] in Hsum.
  pose proof (sum_map_squares_nonneg f l) as Hrest. unfold sum in Hrest.
  pose proof (Rle_0_sqr (f a)) as Ha. unfold Rsqr in Ha.
  destruct Hp as [<-|Hp].
  - apply Rsqr_0_uniq. unfold Rsqr. lra.
  - apply IH; [lra | exact Hp].
Qed.

(** The sample standard deviation is 0 exactly when all the values are
    equal. *)
Lemma sample_std_zero_iff xs :
  1 < length xs ->
  sample_std xs = 0%R <-> exists c, forall x, In x xs -> x = c.
Proof.
  intros Hlen.
  assert (Hd : (0 < INR (length xs) - 1)%R).
  { rewrite <- (minus_INR _ 1) by lia. apply lt_0_INR. lia. }
  split.
  - intros Hzero. exists (sum xs / INR (length xs))%R.
    unfold sample_std in Hzero.
    pose proof (sum_map_squares_nonneg
                  (fun x => (x - sum xs / INR (length xs))%R) xs) as Hnn.
    change (map (fun x => Rsqr (x - sum xs / INR (length xs))) xs)
      with (map (fun x => ((x - sum xs / INR (length xs)) *
                           (x - sum xs / INR (length xs)))%R) xs) in Hzero.
    apply sqrt_eq_0 in Hzero.
    + assert (Hs : sum (map (fun x => ((x - sum xs / INR (length xs)) *
                           (x - sum xs / INR (length xs)))%R) xs) = 0%R).
      { apply Rmult_eq_reg_r with (/ (INR (length xs) - 1))%R.
        - rewrite Rmult_0_l. exact Hzero.
        - apply Rinv_neq_0_compat. lra. }
      intros x Hx.
      pose proof (sum_squares_zero
                    (fun x => (x - sum xs / INR (length xs))%R) xs Hs x Hx).
      cbv beta in H. lra.
    + apply Rmult_le_pos; [exact Hnn|].
      left. now apply Rinv_0_lt_compat.
  - intros (c & Hall).
    assert (Hrep : xs = repeat c (length xs)).
    { apply Forall_eq_repeat, Forall_forall. intros x Hx.
      symmetry. now apply Hall. }
    rewrite Hrep. apply sample_std_repeat. lia.
Qed.

Section MetricsExtras.

Variable fill_pad : bool.

(** X1.  A ticker that is in the table without a Close column does not give
    [None]: the [KeyError] of [stock_df['Close']] is raised outside the
    [try], by [calculate_metrics] and so by [main]. *)
Theorem X1_missing_close_raises h df t ticker :
  nth_error h df = Some (OTable t) ->
  contains t ticker = true ->
  has_close t ticker = false ->
  fst (calculate_metrics fill_pad df ticker h) = Raise KeyError /\
  fst (main fill_pad df ticker h) = Raise KeyError.
Proof.
  intros Hdf Hin Hno.
  destruct (select_present _ _ Hin) as (sub & Hsel & _).
  assert (Hclose : getitem sub "Close" = Raise KeyError).
  { unfold has_close, close_of in Hno. rewrite Hsel in Hno.
    unfold getitem in *. destruct (find _ _); [discriminate | reflexivity]. }
  pose proof (calculate_metrics_no_close fill_pad _ _ _ _ _ Hdf Hsel Hclose)
    as Hrun.
  split; [now rewrite Hrun|].
  unfold main. rewrite bind_eq, Hrun. reflexivity.
Qed.

(** X2.  Whatever [calculate_metrics] does (return a frame, return [None]
    or raise), every object that was on the heap is left as it was, and at
    most one new object is created. *)
Theorem X2_metrics_never_mutates h df ticker :
  (forall l o,
      nth_error h l = Some o ->
      nth_error (snd (calculate_metrics fill_pad df ticker h)) l = Some o) /\
  length h <= length (snd (calculate_metrics fill_pad df ticker h))
           <= S (length h).
Proof.
  assert (Hgrow : forall o', (forall l o, nth_error h l = Some o ->
                     nth_error (h ++ [o']) l = Some o) /\
                   length h <= length (h ++ [o']) <= S (length h)).
  { intros o'. split.
    - intros l o Hl. rewrite nth_error_app1; [exact Hl|].
      apply nth_error_Some. congruence.
    - rewrite length_app. simpl. lia. }
  assert (Hsame : (forall l o, nth_error h l = Some o ->
                     nth_error h l = Some o) /\
                  length h <= length h <= S (length h)) by (split; [auto|lia]).
  unfold calculate_metrics. rewrite bind_eq. unfold read_table.
  destruct (nth_error h df) as [[t|f]|] eqn:Hdf; try exact Hsame.
  destruct (select t ticker) as [sub|e] eqn:Hsel.
  - destruct (getitem sub "Close") as [close|e] eqn:Hclose.
    + pose proof (calculate_metrics_present fill_pad _ _ _ _ _ _
                    Hdf Hsel Hclose) as Hrun.
      unfold calculate_metrics in Hrun. rewrite bind_eq in Hrun.
      unfold read_table in Hrun. rewrite Hdf, Hsel in Hrun.
      rewrite Hrun. apply Hgrow.
    + assert (e = KeyError) as ->.
      { unfold getitem in Hclose. destruct (find _ _); congruence. }
      pose proof (calculate_metrics_no_close fill_pad _ _ _ _ _
                    Hdf Hsel Hclose) as Hrun.
      unfold calculate_metrics in Hrun. rewrite bind_eq in Hrun.
      unfold read_table in Hrun. rewrite Hdf, Hsel in Hrun.
      rewrite Hrun. apply Hgrow.
  - destruct e; exact Hsame.
Qed.

(** X3.  Whatever the closes are, the first 21 rows of Volatility, the
    first 49 rows of SMA_50 and the first 199 rows of SMA_200 are missing:
    the first daily return is missing, so the first full window of 21
    returns ends at row 21. *)
Theorem X3_warm_up_rows_missing h df t ticker close :
  nth_error h df = Some (OTable t) ->
  close_of t ticker = Ok close ->
  exists f vol sma50 sma200,
    calculate_metrics fill_pad df ticker h =
      (Ok (Some (length h)), h ++ [OFrame f]) /\
    getitem f "Volatility" = Ok vol /\
    getitem f "SMA_50" = Ok sma50 /\
    getitem f "SMA_200" = Ok sma200 /\
    (forall i, i < length close -> i < 21 -> nth_error vol i = Some None) /\
    (forall i, i < length close -> i < 49 -> nth_error sma50 i = Some None) /\
    (forall i, i < length close -> i < 199 -> nth_error sma200 i = Some None).
Proof.
  intros Hdf Hc.
  destruct (close_of_inv _ _ _ Hc) as (sub & Hsel & Hclose).
  exists (with_metrics fill_pad sub close). do 3 eexists.
  split; [now apply calculate_metrics_present with (t := t)|].
  split; [apply with_metrics_volatility|].
  split; [apply with_metrics_sma50|].
  split; [apply with_metrics_sma200|].
  repeat split.
  - intros i Hi Hearly.
    rewrite (mul_scalar_nth_error _ _ _ None); [reflexivity|].
    apply rolling_no_window; [now rewrite pct_change_length|].
    intros (xs & _ & Hw & Hnth).
    assert (i = 20) as -> by lia.
    specialize (Hnth 0 ltac:(lia)). cbn [Nat.sub Nat.add] in Hnth.
    rewrite pct_change_head in Hnth; [discriminate|].
    destruct close; [simpl in Hi; lia | discriminate].
  - intros i Hi Hearly. apply rolling_no_window; [exact Hi|].
    intros (xs & _ & Hw & _). lia.
  - intros i Hi Hearly. apply rolling_no_window; [exact Hi|].
    intros (xs & _ & Hw & _). lia.
Qed.

(** X4.  For a close that stays at one non-zero price [p] on all [n] rows,
    the Volatility is exactly 0 on every row from 21 on and both moving
    averages are exactly [p] on every row where their window is full. *)
Theorem X4_constant_price h df t ticker p n :
  nth_error h df = Some (OTable t) ->
  close_of t ticker = Ok (repeat (Some p) n) ->
  p <> 0%R ->
  exists f vol sma50 sma200,
    calculate_metrics fill_pad df ticker h =
      (Ok (Some (length h)), h ++ [OFrame f]) /\
    getitem f "Volatility" = Ok vol /\
    getitem f "SMA_50" = Ok sma50 /\
    getitem f "SMA_200" = Ok sma200 /\
    (forall i, 21 <= i < n -> nth_error vol i = Some (Some 0%R)) /\
    (forall i, 49 <= i < n -> nth_error sma50 i = Some (Some p)) /\
    (forall i, 199 <= i < n -> nth_error sma200 i = Some (Some p)).
Proof.
  intros Hdf Hc _.
  destruct (close_of_inv _ _ _ Hc) as (sub & Hsel & Hclose).
  exists (with_metrics fill_pad sub (repeat (Some p) n)). do 3 eexists.
  split; [now apply calculate_metrics_present with (t := t)|].
  split; [apply with_metrics_volatility|].
  split; [apply with_metrics_sma50|].
  split; [apply with_metrics_sma200|].
  assert (Hsma : forall w i, 0 < w -> w <= S i -> i < n ->
            nth_error (rolling w agg_mean (repeat (Some p) n)) i
            = Some (Some p)).
  { intros w i Hw Hwi Hi.
    rewrite (rolling_window w agg_mean _ i (repeat p w)); [|exact Hw|].
    - unfold agg_mean. rewrite repeat_length.
      destruct (Nat.eqb_spec w 0); [lia|]. now rewrite mean_repeat.
    - split; [apply repeat_length|]. split; [exact Hwi|].
      intros k Hk. rewrite nth_error_repeat by lia.
      now rewrite nth_repeat_lt. }
  repeat split.
  - intros i [Hlo Hhi].
    erewrite mul_scalar_nth_error.
    2:{ apply (rolling_window 21 agg_std _ i (repeat (p / p - 1)%R 21));
          [lia|].
        split; [apply repeat_length|]. split; [lia|].
        intros k Hk. rewrite nth_repeat_lt by exact Hk.
        replace (S i - 21 + k) with (S (i - 21 + k)) by lia.
        apply pct_change_succ; apply nth_error_repeat; lia. }
    rewrite agg_std_sample by (rewrite repeat_length; lia).
    rewrite sample_std_repeat by lia. cbn [option_map].
    now rewrite Rmult_0_l.
  - intros i [Hlo Hhi]. apply Hsma; lia.
  - intros i [Hlo Hhi]. apply Hsma; lia.
Qed.

(** X5.  A Volatility value that is a number is never negative, and it is
    0 exactly when the 21 daily returns of its window, rows [i-20 .. i], are
    all the same number. *)
Theorem X5_volatility_zero_iff_flat h df t ticker close :
  nth_error h df = Some (OTable t) ->
  close_of t ticker = Ok close ->
  exists f daily vol,
    calculate_metrics fill_pad df ticker h =
      (Ok (Some (length h)), h ++ [OFrame f]) /\
    getitem f "Daily Return" = Ok daily /\
    getitem f "Volatility" = Ok vol /\
    forall i v,
      nth_error vol i = Some (Some v) ->
      (0 <= v)%R /\
      (v = 0%R <->
       exists c, forall k, i - 20 <= k <= i ->
                           nth_error daily k = Some (Some c)).
Proof.
  intros Hdf Hc.
  destruct (close_of_inv _ _ _ Hc) as (sub & Hsel & Hclose).
  exists (with_metrics fill_pad sub close). do 2 eexists.
  split; [now apply calculate_metrics_present with (t := t)|].
  split; [apply with_metrics_daily|].
  split; [apply with_metrics_volatility|].
  intros i v Hv.
  apply mul_scalar_value in Hv as (x & Hx & ->).
  apply rolling_value_agg in Hx as (xs & Hwin & Hagg).
  pose proof Hwin as (Hlen & Hwi & Hnth).
  rewrite agg_std_sample in Hagg by lia. inversion Hagg as [Hstd].
  assert (Hroot : (0 < sqrt 252)%R) by (apply sqrt_lt_R0; lra).
  assert (Hnn : (0 <= sample_std xs)%R) by (unfold sample_std; apply sqrt_pos).
  split; [apply Rmult_le_pos; lra|].
  assert (Hzero : (sample_std xs * sqrt 252)%R = 0%R <->
                  sample_std xs = 0%R).
  { split; intros H; [|rewrite H; ring].
    apply Rmult_integral in H as [H|H]; [exact H | lra]. }
  rewrite Hzero, sample_std_zero_iff by lia.
  split; intros (c & Hall); exists c.
  - intros k Hk.
    replace k with (S i - 21 + (k - (i - 20))) by lia.
    rewrite Hnth by lia. do 2 f_equal.
    apply Hall, nth_In. lia.
  - intros y Hy. apply (In_nth _ _ 0%R) in Hy as (j & Hj & <-).
    specialize (Hnth j ltac:(lia)).
    rewrite (Hall (S i - 21 + j)) in Hnth by lia.
    now inversion Hnth.
Qed.

(** X6.  A moving average that is a number lies between any two bounds that
    hold for the closes of its window: SMA_50 at row [i] for the closes of
    rows [i-49 .. i], SMA_200 for those of rows [i-199 .. i]. *)
Theorem X6_moving_average_between_bounds h df t ticker close :
  nth_error h df = Some (OTable t) ->
  close_of t ticker = Ok close ->
  exists f sma50 sma200,
    calculate_metrics fill_pad df ticker h =
      (Ok (Some (length h)), h ++ [OFrame f]) /\
    getitem f "SMA_50" = Ok sma50 /\
    getitem f "SMA_200" = Ok sma200 /\
    (forall i v lo hi,
        nth_error sma50 i = Some (Some v) ->
        (forall k c, i - 49 <= k <= i ->
                     nth_error close k = Some (Some c) -> (lo <= c <= hi)%R) ->
        (lo <= v <= hi)%R) /\
    (forall i v lo hi,
        nth_error sma200 i = Some (Some v) ->
        (forall k c, i - 199 <= k <= i ->
                     nth_error close k = Some (Some c) -> (lo <= c <= hi)%R) ->
        (lo <= v <= hi)%R).
Proof.
  intros Hdf Hc.
  destruct (close_of_inv _ _ _ Hc) as (sub & Hsel & Hclose).
  exists (with_metrics fill_pad sub close). do 2 eexists.
  split; [now apply calculate_metrics_present with (t := t)|].
  split; [apply with_metrics_sma50|].
  split; [apply with_metrics_sma200|].
  assert (Hgen : forall w i v lo hi, 0 < w ->
            nth_error (rolling w agg_mean close) i = Some (Some v) ->
            (forall k c, i - (w - 1) <= k <= i ->
               nth_error close k = Some (Some c) -> (lo <= c <= hi)%R) ->
            (lo <= v <= hi)%R).
  { intros w i v lo hi Hw Hv Hbound.
    apply rolling_value_agg in Hv as (xs & (Hlen & Hwi & Hnth) & Hagg).
    unfold agg_mean in Hagg. rewrite Hlen in Hagg.
    destruct (Nat.eqb_spec w 0); [lia|]. inversion Hagg.
    apply mean_bounds.
    - destruct xs; [simpl in Hlen; lia | discriminate].
    - intros x Hx. apply (In_nth _ _ 0%R) in Hx as (k & Hk & <-).
      apply (Hbound (S i - w + k)); [lia|]. apply Hnth. lia. }
  split.
  - intros i v lo hi Hv Hb. apply (Hgen 50 i v lo hi); [lia | exact Hv|].
    exact Hb.
  - intros i v lo hi Hv Hb. apply (Hgen 200 i v lo hi); [lia | exact Hv|].
    exact Hb.
Qed.

Lemma volatility_row_defined close i :
  21 <= i ->
  (forall k, k <= 21 ->
     exists c, nth_error close (i - 21 + k) = Some (Some c)) ->
  exists v,
    nth_error (mul_scalar (rolling 21 agg_std (pct_change fill_pad close))
                 (sqrt 252)) i = Some (Some v).
Proof.
  intros Hi Hcloses.
  set (daily := pct_change fill_pad close).
  set (value := fun c : cell => match c with Some x => x | None => 0%R end).
  set (xs := map (fun k => value (nth (i - 20 + k) daily None)) (seq 0 21)).
  assert (Hrow : forall k, k < 21 ->
            exists r, nth_error daily (i - 20 + k) = Some (Some r)).
  { intros k Hk.
    destruct (Hcloses k ltac:(lia)) as (b & Hb).
    destruct (Hcloses (S k) ltac:(lia)) as (a & Ha).
    exists (a / b - 1)%R.
    replace (i - 20 + k) with (S (i - 21 + k)) by lia.
    apply pct_change_succ; [exact Hb|].
    now replace (S (i - 21 + k)) with (i - 21 + S k) by lia. }
  assert (Hwin : window_values daily 21 i xs).
  { split; [unfold xs; now rewrite length_map, length_seq|].
    split; [lia|]. intros k Hk.
    replace (S i - 21 + k) with (i - 20 + k) by lia.
    destruct (Hrow k Hk) as (r & Hr). rewrite Hr. do 2 f_equal.
    assert (Hx : nth_error xs k =
                 Some (value (nth (i - 20 + k) daily None))).
    { unfold xs. rewrite nth_error_map, nth_error_seq.
      destruct (Nat.ltb_spec k 21); [reflexivity | lia]. }
    rewrite (nth_error_nth _ _ 0%R Hx).
    assert (Hn : @nth cell (i - 20 + k) daily None = Some r)
      by (apply nth_error_nth; exact Hr).
    now rewrite Hn. }
  eexists.
  erewrite mul_scalar_nth_error
    by (apply (rolling_window 21 agg_std daily i xs); [lia | exact Hwin]).
  rewrite agg_std_sample by (destruct Hwin as (-> & _); lia).
  reflexivity.
Qed.

(** X7.  Volatility at a row from 21 on is a number as soon as the 22
    closes that end at that row are all non-zero numbers. *)
Theorem X7_volatility_from_closes h df t ticker close :
  nth_error h df = Some (OTable t) ->
  close_of t ticker = Ok close ->
  exists f vol,
    calculate_metrics fill_pad df ticker h =
      (Ok (Some (length h)), h ++ [OFrame f]) /\
    getitem f "Volatility" = Ok vol /\
    forall i,
      21 <= i ->
      (forall k, k <= 21 ->
         exists c, nth_error close (i - 21 + k) = Some (Some c) /\
                   c <> 0%R) ->
      exists v, nth_error vol i = Some (Some v).
Proof.
  intros Hdf Hc.
  destruct (close_of_inv _ _ _ Hc) as (sub & Hsel & Hclose).
  exists (with_metrics fill_pad sub close). eexists.
  split; [now apply calculate_metrics_present with (t := t)|].
  split; [apply with_metrics_volatility|].
  intros i Hi Hcloses. apply volatility_row_defined; [exact Hi|].
  intros k Hk. destruct (Hcloses k Hk) as (c & Hc' & _). now exists c.
Qed.

End MetricsExtras.

(** * Further properties of the correlation engine *)

Lemma filter_all_true {A} (p : A -> bool) (l : list A) :
  (forall x, In x l -> p x = true) -> filter p l = l.
Proof.
  induction l as [|a l IH]; intros H; [reflexivity|].
  simpl. rewrite (H a) by now left.
  f_equal. apply IH. intros x Hx. apply H. now right.
Qed.

Lemma filter_drops_one {A} (p : A -> bool) (l : list A) x :
  In x l -> p x = false -> length (filter p l) < length l.
Proof.
  induction l as [|a l IH]; intros Hin Hx; [destruct Hin|].
  simpl. destruct Hin as [->|Hin].
  - rewrite Hx. pose proof (filter_length_le p l). lia.
  - specialize (IH Hin Hx). destruct (p a); simpl; lia.
Qed.

Section CorrelationExtras.

Variable fill_pad : bool.
Variable t : PriceTable.

Lemma included_idempotent tickers :
  included t (included t tickers) = included t tickers.
Proof.
  unfold included at 1.
  rewrite filter_all_true
    by (intros a Ha; now apply included_In in Ha).
  apply fold_add_label_fresh. simpl. apply included_NoDup.
Qed.

Lemma returns_of_head a : nth 0 (returns_of fill_pad t a) None = None.
Proof.
  unfold returns_of. destruct (close_of t a) as [close|]; [|reflexivity].
  destruct close as [|c close]; [now destruct fill_pad|].
  apply nth_error_nth. apply pct_change_head. discriminate.
Qed.

Lemma first_row_incomplete tickers :
  included t tickers <> [] -> all_defined_at fill_pad t tickers 0 = false.
Proof.
  intros Hne. destruct (all_defined_at fill_pad t tickers 0) eqn:E;
    [|reflexivity].
  exfalso. unfold all_defined_at in E. rewrite forallb_forall in E.
  destruct (included t tickers) as [|a l] eqn:Hinc; [congruence|].
  assert (Ha : In a (included t tickers)) by (rewrite Hinc; now left).
  apply included_In in Ha as [Hin Hc].
  specialize (E a (proj2 (filter_In _ _ _) (conj Hin Hc))).
  rewrite returns_of_head in E. discriminate.
Qed.

(** X8.  The matrix depends on the universe only through the tickers that
    the table holds with a closing price: absent tickers and repeated names
    change nothing. *)
Theorem X8_universe_noise_ignored tickers :
  calculate_correlation fill_pad t tickers =
  calculate_correlation fill_pad t (included t tickers).
Proof.
  destruct (calculate_correlation_run fill_pad t tickers)
    as (idx & Hrun & Hidx).
  destruct (calculate_correlation_run fill_pad t (included t tickers))
    as (idx' & Hrun' & Hidx').
  rewrite included_idempotent in Hrun', Hidx'.
  rewrite Hrun, Hrun'.
  reflexivity.
Qed.

(** X9.  As soon as one ticker is included, the first date of the table is
    never among the rows kept for the correlation: the first return of every
    ticker is missing, so the kept frame has fewer rows than the table. *)
Theorem X9_first_date_dropped tickers :
  included t tickers <> [] ->
  dates t <> [] ->
  exists cp,
    correlation_loop fill_pad t (mkFrame [] []) tickers = Ok cp /\
    calculate_correlation fill_pad t tickers = Ok (corr (dropna cp)) /\
    row_complete (columns cp) 0 = false /\
    length (index (dropna cp)) < length (dates t).
Proof.
  intros Hne Hdates.
  destruct (correlation_loop_labelled fill_pad t tickers [] [])
    as (idx & Hloop & Hidx); [now right|].
  change (labelled_returns fill_pad t []) with (@nil (string * Series)) in Hloop.
  fold (included t tickers) in Hloop, Hidx.
  destruct Hidx as [->|[_ Hnil]]; [|contradiction].
  eexists. split; [exact Hloop|].
  split; [unfold calculate_correlation; now rewrite Hloop|].
  cbn [columns]. split.
  - rewrite row_complete_included. now apply first_row_incomplete.
  - unfold dropna. cbn [index columns].
    rewrite (keep_rows_eq _ 0), length_map.
    pose proof (filter_drops_one
                  (row_complete
                     (labelled_returns fill_pad t (included t tickers)))
                  (seq 0 (length (dates t))) 0) as Hdrop.
    rewrite length_seq in Hdrop. apply Hdrop.
    + apply in_seq. destruct (dates t); [congruence | simpl; lia].
    + rewrite row_complete_included. now apply first_row_incomplete.
Qed.

(** X10.  When the universe already includes a ticker, adding tickers to
    it can only remove dates from the kept frame: every date kept for the
    larger universe is kept for the smaller one. *)
Theorem X10_more_tickers_fewer_dates tickers more :
  included t tickers <> [] ->
  exists cp cp',
    correlation_loop fill_pad t (mkFrame [] []) tickers = Ok cp /\
    correlation_loop fill_pad t (mkFrame [] []) (tickers ++ more) = Ok cp' /\
    incl (index (dropna cp')) (index (dropna cp)).
Proof.
  intros Hne.
  assert (Hne' : included t (tickers ++ more) <> []).
  { intros Hnil. destruct (included t tickers) as [|a l] eqn:E; [congruence|].
    assert (Ha : In a (included t tickers)) by (rewrite E; now left).
    apply included_In in Ha as [Hin Hc].
    assert (Ha' : In a (included t (tickers ++ more))).
    { apply included_In. split; [apply in_or_app; now left | exact Hc]. }
    rewrite Hnil in Ha'. destruct Ha'. }
  destruct (correlation_loop_labelled fill_pad t tickers [] [])
    as (idx & Hloop & Hidx); [now right|].
  destruct (correlation_loop_labelled fill_pad t (tickers ++ more) [] [])
    as (idx' & Hloop' & Hidx'); [now right|].
  change (labelled_returns fill_pad t []) with (@nil (string * Series))
    in Hloop, Hloop'.
  fold (included t tickers) in Hloop, Hidx.
  fold (included t (tickers ++ more)) in Hloop', Hidx'.
  destruct Hidx as [->|[_ Hnil]]; [|contradiction].
  destruct Hidx' as [->|[_ Hnil]]; [|contradiction].
  do 2 eexists. split; [exact Hloop|]. split; [exact Hloop'|].
  unfold dropna. cbn [index columns]. rewrite !dropna_index.
  unfold retained_dates. intros d Hd.
  apply in_map_iff in Hd as (i & <- & Hi).
  apply (in_map (fun i => nth i (dates t) 0)).
  apply retained_rows_iff in Hi as [Hlt Hall].
  apply retained_rows_iff. split; [exact Hlt|].
  intros a Ha Hc. apply Hall; [apply in_or_app; now left | exact Hc].
Qed.


End CorrelationExtras.

(** * Rescaled prices *)

Lemma valid_mul_scalar s k :
  valid (mul_scalar s k) = map (fun x => (x * k)%R) (valid s).
Proof.
  induction s as [|[x|] s IH]; simpl; [reflexivity | now rewrite IH | exact IH].
Qed.

Lemma removelast_map {A B} (g : A -> B) (l : list A) :
  removelast (map g l) = map g (removelast l).
Proof.
  induction l as [|a l IH]; [reflexivity|].
  destruct l as [|b l]; [reflexivity|].
  cbn [map removelast] in *. now rewrite IH.
Qed.

Lemma removelast_In {A} (x : A) (l : list A) :
  In x (removelast l) -> In x l.
Proof.
  induction l as [|a l IH]; [auto|].
  destruct l as [|b l]; [intros []|].
  cbn [removelast]. intros [->|H]; [now left | right; now apply IH].
Qed.

Lemma shift_mul_scalar s k : shift (mul_scalar s k) = mul_scalar (shift s) k.
Proof.
  destruct s as [|c s]; [reflexivity|].
  unfold shift, mul_scalar. cbn [map option_map].
  f_equal. apply (removelast_map _ (c :: s)).
Qed.

Lemma shift_In y s : In (Some y) (shift s) -> In (Some y) s.
Proof.
  destruct s as [|c s]; [auto|]. unfold shift.
  intros [H|H]; [discriminate | now apply removelast_In].
Qed.

Lemma ffill_from_mul_scalar last s k :
  ffill_from (option_map (fun x => (x * k)%R) last) (mul_scalar s k) =
  mul_scalar (ffill_from last s) k.
Proof.
  revert last; induction s as [|c s IH]; intros last; [reflexivity|].
  destruct c as [x|]; cbn [mul_scalar map option_map ffill_from notna].
  - f_equal. apply (IH (Some x)).
  - f_equal. apply IH.
Qed.

Lemma ffill_from_In last s y :
  In (Some y) (ffill_from last s) -> In (Some y) s \/ last = Some y.
Proof.
  revert last; induction s as [|c s IH]; intros last; [intros []|].
  destruct c as [x|]; cbn [ffill_from notna].
  - intros [H|H]; [left; now left|].
    destruct (IH _ H) as [Hs|Hl]; [left; now right | left; now left].
  - intros [H|H]; [now right|].
    destruct (IH _ H) as [Hs|Hl]; [left; now right | now right].
Qed.

Lemma zip_div_mul_scalar d e k :
  k <> 0%R ->
  (forall y, In (Some y) e -> y <> 0%R) ->
  zip_with cell_div (mul_scalar d k) (mul_scalar e k) = zip_with cell_div d e.
Proof.
  intros Hk. revert e; induction d as [|a d IH]; intros [|b e] He;
    try reflexivity.
  cbn [mul_scalar map zip_with]. f_equal.
  - destruct a as [x|], b as [y|]; try reflexivity.
    cbn. f_equal. field. split; first [exact Hk | apply He; now left].
  - apply IH. intros y Hy. apply He. now right.
Qed.

Lemma sum_scale xs k : sum (map (fun x => (x * k)%R) xs) = (sum xs * k)%R.
Proof.
  induction xs as [|x xs IH]; [simpl; ring|].
  cbn [map]. unfold sum in *. cbn [fold_right]. rewrite IH. ring.
Qed.

Lemma agg_mean_scale xs k :
  agg_mean (map (fun x => (x * k)%R) xs) =
  option_map (fun x => (x * k)%R) (agg_mean xs).
Proof.
  unfold agg_mean, mean. rewrite length_map, sum_scale.
  destruct (length xs =? 0); [reflexivity|].
  cbn. f_equal. unfold Rdiv. ring.
Qed.

Lemma window_at_mul_scalar w s k i :
  window_at w (mul_scalar s k) i = mul_scalar (window_at w s i) k.
Proof.
  unfold window_at, mul_scalar. now rewrite skipn_map, firstn_map.
Qed.

Lemma rolling_mean_mul_scalar w s k :
  rolling w agg_mean (mul_scalar s k) = mul_scalar (rolling w agg_mean s) k.
Proof.
  unfold rolling. rewrite mul_scalar_length.
  transitivity
    (map (fun i =>
            option_map (fun x => (x * k)%R)
              (if length (valid (window_at w s i)) <? w then None
               else agg_mean (valid (window_at w s i))))
         (seq 0 (length s))).
  - apply map_ext. intros i. cbv zeta.
    rewrite window_at_mul_scalar, valid_mul_scalar, length_map.
    destruct (length (valid (window_at w s i)) <? w); [reflexivity|].
    apply agg_mean_scale.
  - unfold mul_scalar. now rewrite map_map.
Qed.

Section RescalingExtras.

Variable fill_pad : bool.

Lemma pct_change_mul_scalar s k :
  k <> 0%R ->
  (forall y, In (Some y) s -> y <> 0%R) ->
  pct_change fill_pad (mul_scalar s k) = pct_change fill_pad s.
Proof.
  intros Hk Hs. unfold pct_change.
  assert (Hdata : (if fill_pad then ffill (mul_scalar s k)
                   else mul_scalar s k) =
                  mul_scalar (if fill_pad then ffill s else s) k).
  { destruct fill_pad; [|reflexivity].
    unfold ffill. apply (ffill_from_mul_scalar None). }
  rewrite Hdata, shift_mul_scalar. f_equal.
  apply zip_div_mul_scalar; [exact Hk|].
  intros y Hy. apply shift_In in Hy. apply Hs.
  destruct fill_pad; [|exact Hy].
  apply ffill_from_In in Hy as [Hy|Hy]; [exact Hy | discriminate].
Qed.

(** X12.  Multiplying every close of a ticker by a constant [k], the closes
    being non-zero, leaves the Daily Return and Volatility columns as they
    are and multiplies SMA_50 and SMA_200 by [k]. *)
Theorem X12_price_rescaling h df t h' df' t' ticker close k :
  nth_error h df = Some (OTable t) ->
  close_of t ticker = Ok close ->
  nth_error h' df' = Some (OTable t') ->
  close_of t' ticker = Ok (mul_scalar close k) ->
  k <> 0%R ->
  (forall y, In (Some y) close -> y <> 0%R) ->
  exists f f' daily vol sma50 sma200,
    calculate_metrics fill_pad df ticker h =
      (Ok (Some (length h)), h ++ [OFrame f]) /\
    calculate_metrics fill_pad df' ticker h' =
      (Ok (Some (length h')), h' ++ [OFrame f']) /\
    getitem f "Daily Return" = Ok daily /\
    getitem f' "Daily Return" = Ok daily /\
    getitem f "Volatility" = Ok vol /\
    getitem f' "Volatility" = Ok vol /\
    getitem f "SMA_50" = Ok sma50 /\
    getitem f' "SMA_50" = Ok (mul_scalar sma50 k) /\
    getitem f "SMA_200" = Ok sma200 /\
    getitem f' "SMA_200" = Ok (mul_scalar sma200 k).
Proof.
  intros Hdf Hc Hdf' Hc' Hk Hnz.
  destruct (close_of_inv _ _ _ Hc) as (sub & Hsel & Hclose).
  destruct (close_of_inv _ _ _ Hc') as (sub' & Hsel' & Hclose').
  exists (with_metrics fill_pad sub close).
  exists (with_metrics fill_pad sub' (mul_scalar close k)).
  do 4 eexists.
  split; [now apply calculate_metrics_present with (t := t)|].
  split; [now apply calculate_metrics_present with (t := t')|].
  split; [apply with_metrics_daily|].
  split; [rewrite with_metrics_daily;
          now rewrite pct_change_mul_scalar|].
  split; [apply with_metrics_volatility|].
  split; [rewrite with_metrics_volatility;
          now rewrite pct_change_mul_scalar|].
  split; [apply with_metrics_sma50|].
  split; [rewrite with_metrics_sma50; now rewrite rolling_mean_mul_scalar|].
  split; [apply with_metrics_sma200|].
  rewrite with_metrics_sma200. now rewrite rolling_mean_mul_scalar.
Qed.

End RescalingExtras.

(** * The whole page *)

Lemma TECH_TICKERS_NoDup : NoDup TECH_TICKERS.
Proof.
  unfold TECH_TICKERS.
  repeat (constructor; [simpl; intuition discriminate|]). constructor.
Qed.

Lemma tail_index n f : index (tail n f) = tail_rows n (index f).
Proof. reflexivity. Qed.

Lemma tail_rows_length {A} n (l : list A) :
  length (tail_rows n l) = Nat.min n (length l).
Proof. unfold tail_rows. rewrite length_skipn. lia. Qed.

Section PageExtras.

Variable fill_pad : bool.

Lemma main_page_present h df t ticker sub close m :
  nth_error h df = Some (OTable t) ->
  select t ticker = Ok sub ->
  getitem sub "Close" = Ok close ->
  calculate_correlation fill_pad t TECH_TICKERS = Ok m ->
  fst (main_page fill_pad df ticker h) =
  if 252 <=? length close then
    Ok (Some (mkPage
          (mkKpi
             (nth (length close - 1) close None)
             (nth (length close - 1)
                (mul_scalar (rolling 21 agg_std (pct_change fill_pad close))
                   (sqrt 252)) None)
             (cell_pct (nth (length close - 1) close None)
                       (nth (length close - 252) close None)))
          close
          (rolling 50 agg_mean close)
          (rolling 200 agg_mean close)
          (mul_scalar (rolling 21 agg_std (pct_change fill_pad close))
             (sqrt 252))
          (tail 50 (with_metrics fill_pad sub close))
          m))
  else Raise IndexError.
Proof.
  intros Hdf Hsel Hclose Hcorr. unfold main_page.
  rewrite bind_eq, (calculate_metrics_present _ _ _ _ _ _ _ Hdf Hsel Hclose).
  rewrite bind_eq, get_column_last, with_metrics_close by exact Hclose.
  rewrite bind_eq. unfold lift at 1.
  change (-1)%Z with (- Z.of_nat 1)%Z.
  rewrite iloc_from_end by lia.
  destruct (Nat.leb_spec 1 (length close)) as [H1|H1].
  2:{ destruct (Nat.leb_spec 252 (length close)); [lia | reflexivity]. }
  rewrite bind_eq, get_column_last, with_metrics_volatility.
  rewrite bind_eq. unfold lift at 1.
  rewrite iloc_from_end by lia.
  rewrite mul_scalar_length, rolling_length, pct_change_length.
  destruct (Nat.leb_spec 1 (length close)) as [_|]; [|lia].
  rewrite bind_eq, get_column_last, with_metrics_close by exact Hclose.
  rewrite bind_eq. unfold lift at 1.
  rewrite iloc_from_end by lia.
  destruct (Nat.leb_spec 1 (length close)) as [_|]; [|lia].
  rewrite bind_eq, get_column_last, with_metrics_close by exact Hclose.
  rewrite bind_eq. unfold lift at 1.
  change (-252)%Z with (- Z.of_nat 252)%Z.
  rewrite iloc_from_end by lia.
  destruct (Nat.leb_spec 252 (length close)); [|reflexivity].
  rewrite bind_eq, get_column_last, with_metrics_close by exact Hclose.
  rewrite bind_eq, get_column_last, with_metrics_sma50.
  rewrite bind_eq, get_column_last, with_metrics_sma200.
  rewrite bind_eq, get_column_last, with_metrics_volatility.
  rewrite bind_eq. unfold read_frame at 1. rewrite nth_error_last.
  rewrite bind_eq. unfold read_table at 1.
  rewrite nth_error_app1 by (apply nth_error_Some; congruence).
  rewrite Hdf.
  rewrite bind_eq. unfold lift at 1. rewrite Hcorr.
  reflexivity.
Qed.

(** X13.  What becomes of the page.  A selected ticker that is not in the
    table stops [main] with nothing produced and the heap untouched; one
    that is there without a Close column raises [KeyError]; one with fewer
    than 252 closes raises [IndexError]; in all three cases the correlation
    matrix is never reached.  With 252 closes or more the page is produced:
    its KPI row is that of [main], its price trace is the close series, its
    raw view covers the last 50 dates, and its matrix is
    [calculate_correlation] of the table on [TECH_TICKERS]. *)
Theorem X13_page_outcomes h df t ticker :
  nth_error h df = Some (OTable t) ->
  (contains t ticker = false ->
   main_page fill_pad df ticker h = (Ok None, h)) /\
  (contains t ticker = true -> has_close t ticker = false ->
   fst (main_page fill_pad df ticker h) = Raise KeyError) /\
  (forall close,
      close_of t ticker = Ok close -> length close < 252 ->
      fst (main_page fill_pad df ticker h) = Raise IndexError) /\
  (forall close,
      close_of t ticker = Ok close -> 252 <= length close ->
      exists page,
        fst (main_page fill_pad df ticker h) = Ok (Some page) /\
        fst (main fill_pad df ticker h) = Ok (Some (kpi page)) /\
        price_trace page = close /\
        index (raw_view page) = tail_rows 50 (dates t) /\
        calculate_correlation fill_pad t TECH_TICKERS =
          Ok (corr_matrix page)).
Proof.
  intros Hdf.
  destruct (calculate_correlation_run fill_pad t TECH_TICKERS)
    as (idx & Hcorr & _).
  split; [|split; [|split]].
  - intros Habs. unfold main_page.
    rewrite bind_eq, (calculate_metrics_absent _ _ _ _ _ Hdf Habs).
    reflexivity.
  - intros Hin Hno.
    destruct (select_present _ _ Hin) as (sub & Hsel & _).
    assert (Hclose : getitem sub "Close" = Raise KeyError).
    { unfold has_close, close_of in Hno. rewrite Hsel in Hno.
      unfold getitem in *. destruct (find _ _); [discriminate | reflexivity]. }
    unfold main_page.
    rewrite bind_eq,
      (calculate_metrics_no_close fill_pad _ _ _ _ _ Hdf Hsel Hclose).
    reflexivity.
  - intros close Hc Hshort.
    destruct (close_of_inv _ _ _ Hc) as (sub & Hsel & Hclose).
    rewrite (main_page_present _ _ _ _ _ _ _ Hdf Hsel Hclose Hcorr).
    destruct (Nat.leb_spec 252 (length close)); [lia | reflexivity].
  - intros close Hc Hlong.
    destruct (close_of_inv _ _ _ Hc) as (sub & Hsel & Hclose).
    rewrite (main_page_present _ _ _ _ _ _ _ Hdf Hsel Hclose Hcorr).
    rewrite (main_present _ _ _ _ _ _ _ Hdf Hsel Hclose).
    destruct (Nat.leb_spec 252 (length close)); [|lia].
    eexists. split; [reflexivity|]. cbn [kpi price_trace raw_view corr_matrix].
    split; [reflexivity|]. split; [reflexivity|].
    split; [|exact Hcorr].
    rewrite tail_index, with_metrics_index.
    now rewrite (select_index _ _ _ Hsel).
Qed.

(** X14.  The heat map of [main] is labelled, on both axes, by the
    configured tickers that the table holds with a closing price, in the
    configured order: at most 15 labels, and as many rows and columns. *)
Theorem X14_heat_map_labels t :
  exists m,
    calculate_correlation fill_pad t TECH_TICKERS = Ok m /\
    labels m = filter (has_close t) TECH_TICKERS /\
    length (labels m) <= 15 /\
    square m (length (labels m)).
Proof.
  destruct (calculate_correlation_run fill_pad t TECH_TICKERS)
    as (idx & Hrun & _).
  assert (Hlab : labels (corr (dropna (mkFrame idx
                   (labelled_returns fill_pad t (included t TECH_TICKERS)))))
                 = filter (has_close t) TECH_TICKERS).
  { rewrite corr_labels, dropna_labels. cbn [columns].
    rewrite labelled_returns_labels.
    apply included_of_NoDup, TECH_TICKERS_NoDup. }
  eexists. split; [exact Hrun|]. split; [exact Hlab|].
  split.
  - rewrite Hlab. apply (filter_length_le (has_close t) TECH_TICKERS).
  - rewrite Hlab, <- (included_of_NoDup t _ TECH_TICKERS_NoDup).
    rewrite <- (dropna_columns_length fill_pad t TECH_TICKERS idx).
    apply corr_square.
Qed.

End PageExtras.

(** * The further properties on sample tables *)

Lemma X1_missing_close_raises_witness :
  fst (calculate_metrics false 0 "A" [OTable open_only_table])
    = Raise KeyError /\
  fst (main false 0 "A" [OTable open_only_table]) = Raise KeyError.
Proof.
  exact (X1_missing_close_raises false [OTable open_only_table] 0
           open_only_table "A" eq_refl eq_refl eq_refl).
Defined.

Lemma X3_warm_up_rows_missing_witness :
  exists f vol,
    calculate_metrics false 0 "A" [OTable pair_table] =
      (Ok (Some 1), [OTable pair_table; OFrame f]) /\
    getitem f "Volatility" = Ok vol /\
    nth_error vol 1 = Some None.
Proof.
  destruct (X3_warm_up_rows_missing false [OTable pair_table] 0 pair_table
              "A" [Some 1%R; Some 2%R; Some 4%R] eq_refl eq_refl)
    as (f & vol & sma50 & sma200 & Hrun & Hvol & _ & _ & Hmiss & _).
  exists f, vol. split; [exact Hrun|]. split; [exact Hvol|].
  apply Hmiss; simpl; lia.
Defined.

Lemma X4_constant_price_witness :
  exists f vol sma50,
    calculate_metrics false 0 "A" [OTable year_table] =
      (Ok (Some 1), [OTable year_table; OFrame f]) /\
    getitem f "Volatility" = Ok vol /\
    getitem f "SMA_50" = Ok sma50 /\
    nth_error vol 251 = Some (Some 0%R) /\
    nth_error sma50 251 = Some (Some 1%R).
Proof.
  destruct (X4_constant_price false [OTable year_table] 0 year_table "A"
              1%R 252 eq_refl eq_refl R1_neq_R0)
    as (f & vol & sma50 & sma200 & Hrun & Hvol & H50 & _ & Hzero & Hflat & _).
  exists f, vol, sma50.
  split; [exact Hrun|]. split; [exact Hvol|]. split; [exact H50|].
  split; [apply Hzero; lia | apply Hflat; lia].
Defined.

Lemma wave_closes_numbers k :
  k <= 21 -> exists c, nth_error wave_closes (21 - 21 + k) = Some (Some c).
Proof.
  intros Hk. cbn [Nat.sub Nat.add]. unfold wave_closes.
  do 22 (destruct k as [|k]; [eexists; reflexivity|]). lia.
Defined.

Lemma X5_volatility_zero_iff_flat_witness :
  exists f vol v,
    calculate_metrics false 0 "A" [OTable wave_table] =
      (Ok (Some 1), [OTable wave_table; OFrame f]) /\
    getitem f "Volatility" = Ok vol /\
    nth_error vol 21 = Some (Some v) /\
    (0 <= v)%R.
Proof.
  destruct (X5_volatility_zero_iff_flat false [OTable wave_table] 0
              wave_table "A" wave_closes eq_refl eq_refl)
    as (f & daily & vol & Hrun & _ & Hvol & Hsign).
  destruct (volatility_row_defined false wave_closes 21 (le_n 21)
              wave_closes_numbers) as (v & Hv).
  assert (Hcol : vol =
            mul_scalar (rolling 21 agg_std (pct_change false wave_closes))
              (sqrt 252)).
  { destruct (close_of_inv wave_table "A" wave_closes eq_refl)
      as (sub & Hsel & Hclose).
    pose proof (calculate_metrics_present false [OTable wave_table] 0
                  wave_table "A" sub wave_closes eq_refl Hsel Hclose) as Hrun'.
    rewrite Hrun in Hrun'. inversion Hrun' as [Hf].
    rewrite Hf, with_metrics_volatility in Hvol. now inversion Hvol. }
  exists f, vol, v.
  split; [exact Hrun|]. split; [exact Hvol|].
  rewrite Hcol. split; [exact Hv|].
  rewrite <- Hcol in Hv. exact (proj1 (Hsign 21 v Hv)).
Defined.

Lemma X6_moving_average_between_bounds_witness :
  exists f sma50,
    calculate_metrics false 0 "A" [OTable year_table] =
      (Ok (Some 1), [OTable year_table; OFrame f]) /\
    getitem f "SMA_50" = Ok sma50 /\
    forall v, nth_error sma50 100 = Some (Some v) -> (1 <= v <= 1)%R.
Proof.
  destruct (X6_moving_average_between_bounds false [OTable year_table] 0
              year_table "A" year_closes eq_refl eq_refl)
    as (f & sma50 & sma200 & Hrun & H50 & _ & Hbound & _).
  exists f, sma50. split; [exact Hrun|]. split; [exact H50|].
  intros v Hv. apply (Hbound 100 v 1%R 1%R Hv).
  intros k c Hk Hc. unfold year_closes in Hc.
  rewrite nth_error_repeat in Hc by lia. inversion Hc. lra.
Defined.

Lemma X7_volatility_from_closes_witness :
  exists f vol v,
    calculate_metrics false 0 "A" [OTable year_table] =
      (Ok (Some 1), [OTable year_table; OFrame f]) /\
    getitem f "Volatility" = Ok vol /\
    nth_error vol 21 = Some (Some v).
Proof.
  destruct (X7_volatility_from_closes false [OTable year_table] 0
              year_table "A" year_closes eq_refl eq_refl)
    as (f & vol & Hrun & Hvol & Hdefined).
  destruct (Hdefined 21) as (v & Hv); [lia | |].
  - intros k Hk. exists 1%R. unfold year_closes.
    split; [apply nth_error_repeat; lia | exact R1_neq_R0].
  - exists f, vol, v. split; [exact Hrun|]. split; [exact Hvol | exact Hv].
Defined.

Lemma X9_first_date_dropped_witness :
  exists cp,
    calculate_correlation false pair_table ["A"; "B"] =
      Ok (corr (dropna cp)) /\
    length (index (dropna cp)) < 3.
Proof.
  destruct (X9_first_date_dropped false pair_table ["A"; "B"])
    as (cp & _ & Hrun & _ & Hlen).
  - vm_compute. discriminate.
  - discriminate.
  - exists cp. split; [exact Hrun | exact Hlen].
Defined.

Lemma X10_more_tickers_fewer_dates_witness :
  exists cp cp',
    correlation_loop false disjoint_table (mkFrame [] []) ["A"] = Ok cp /\
    correlation_loop false disjoint_table (mkFrame [] []) (["A"] ++ ["B"])
      = Ok cp' /\
    incl (index (dropna cp')) (index (dropna cp)).
Proof.
  apply (X10_more_tickers_fewer_dates false disjoint_table ["A"] ["B"]).
  vm_compute. discriminate.
Defined.



Lemma pair_closes_nonzero :
  forall y, In (Some y) [Some 1%R; Some 2%R; Some 4%R] -> y <> 0%R.
Proof.
  intros y [H|[H|[H|[]]]]; inversion H; lra.
Defined.

Lemma two_nonzero : 2%R <> 0%R.
Proof. lra. Defined.

Lemma X12_price_rescaling_witness :
  exists f f' daily,
    calculate_metrics false 0 "A" [OTable pair_table] =
      (Ok (Some 1), [OTable pair_table; OFrame f]) /\
    calculate_metrics false 0 "A" [OTable doubled_table] =
      (Ok (Some 1), [OTable doubled_table; OFrame f']) /\
    getitem f "Daily Return" = Ok daily /\
    getitem f' "Daily Return" = Ok daily.
Proof.
  destruct (X12_price_rescaling false
              [OTable pair_table] 0 pair_table
              [OTable doubled_table] 0 doubled_table
              "A" [Some 1%R; Some 2%R; Some 4%R] 2%R
              eq_refl eq_refl eq_refl eq_refl
              two_nonzero pair_closes_nonzero)
    as (f & f' & daily & vol & sma50 & sma200
        & Hrun & Hrun' & Hd & Hd' & _).
  exists f, f', daily.
  split; [exact Hrun|]. split; [exact Hrun'|]. split; [exact Hd | exact Hd'].
Defined.

Lemma X13_page_outcomes_witness :
  main_page false 0 "IBM" [OTable tech_table] = (Ok None, [OTable tech_table])
  /\
  exists page,
    fst (main_page false 0 "AAPL" [OTable tech_table]) = Ok (Some page) /\
    price_trace page = year_closes /\
    calculate_correlation false tech_table TECH_TICKERS =
      Ok (corr_matrix page).
Proof.
  split.
  - apply (X13_page_outcomes false [OTable tech_table] 0 tech_table "IBM"
             eq_refl).
    reflexivity.
  - destruct (X13_page_outcomes false [OTable tech_table] 0 tech_table "AAPL"
                eq_refl) as (_ & _ & _ & Hpage).
    destruct (Hpage year_closes eq_refl) as (page & Hrun & _ & Hp & _ & Hm).
    + unfold year_closes. rewrite repeat_length. lia.
    + exists page. split; [exact Hrun|]. split; [exact Hp | exact Hm].
Defined.
